(** * Inventory service: a shallow embedding of the Express application

    The service keeps a list of inventory items in memory, mirrors it to
    [inventory.json] in the cache directory on every mutation, stores
    uploaded photos in the same directory and answers HTTP requests
    through an ordered stack of Express routes.

    The embedding follows the first listing of the server source; the
    second listing repeats it with Swagger comments, a [/docs] mount and
    [path.resolve] instead of [path.join] in the photo route.  Handlers
    are state-passing functions [Request -> State -> Response * State];
    the router walks the route stack in registration order, as Express
    does.

    What the model takes as given: a request arrives with its path split
    into segments (free of percent-escapes) and its body already parsed
    into fields; ids are integers held in JavaScript numbers, magnitudes
    beyond the range of a double left aside; an inventory file either
    parses to an array of item records or does not parse at all; file
    names in the cache directory are compared as written. *)

From Stdlib Require Import ZArith NArith String Ascii DecimalString DecimalPos.
From stdpp Require Import gmap list fin_maps.

Set Warnings "-register-all".

(** ** Strings

    A JavaScript string is a sequence of UTF-16 code units. *)

Abbreviation jsstring := (list N).

Definition lit (s : string) : jsstring :=
  (fun a => N_of_ascii a) <$> list_ascii_of_string s.

(** WhiteSpace and LineTerminator code units, the set that
    [String.prototype.trim] strips and [parseInt] skips. *)
Definition isWhiteSpace (c : N) : bool :=
  existsb (N.eqb c)
    [9; 10; 11; 12; 13; 32; 160; 5760; 8232; 8233; 8239; 8287; 12288; 65279]%N
  || (8192 <=? c)%N && (c <=? 8202)%N.

Fixpoint trimStart (s : jsstring) : jsstring :=
  match s with
  | c :: s' => if isWhiteSpace c then trimStart s' else s
  | [] => []
  end.

Definition trimEnd (s : jsstring) : jsstring :=
  reverse (trimStart (reverse s)).

Definition trim (s : jsstring) : jsstring := trimEnd (trimStart s).

(** ** Numbers

    Identifiers are integers held in JavaScript numbers, that is in
    doubles: every integer of magnitude up to [2^53] is one, beyond that
    only the integers of 53 significant bits are.  The only non-integer
    number the handlers meet is [NaN], the result of a failed
    [parseInt].  A number is [Some z] or [None] for [NaN]; [===] on
    numbers is equality of the integers and never holds for [NaN]. *)

Abbreviation number := (option Z).
Abbreviation NaN := (@None Z).

Definition isDigit (c : N) : bool := (48 <=? c)%N && (c <=? 57)%N.

Fixpoint digits (acc : Z) (s : jsstring) : Z :=
  match s with
  | c :: s' =>
      if isDigit c then digits (10 * acc + (Z.of_N c - 48)) s' else acc
  | [] => acc
  end.

(** The optional sign in front of a numeral, and what follows it. *)
Definition signOf (t : jsstring) : Z * jsstring :=
  match t with
  | c :: r =>
      if (c =? 45)%N then ((-1)%Z, r)
      else if (c =? 43)%N then (1%Z, r)
      else (1%Z, t)
  | [] => (1%Z, t)
  end.

(** [parseInt(s, 10)]: skip leading white space, read an optional sign,
    then the longest run of decimal digits; [NaN] when there is none.
    Whatever follows the digits is ignored.  The digits are read as the
    integer they denote: this is the number JavaScript reads whenever
    that integer is a double, as it is for the digits of a stored id. *)
Definition parseInt (s : jsstring) : number :=
  let '(sign, u) := signOf (trimStart s) in
  match u with
  | c :: _ => if isDigit c then Some (sign * digits 0 u)%Z else NaN
  | [] => NaN
  end.

(** An integer written with all its decimal digits. *)
Definition decimal (z : Z) : jsstring :=
  lit (NilZero.string_of_int (Z.to_int z)).

(** The double nearest to a non-negative integer: below [2^53] the
    integer itself; from there on 53 significant bits are kept and the
    rest is rounded to nearest, a tie going to the even significand. *)
Definition roundNat (a : Z) : Z :=
  if (a <? 2 ^ 53)%Z then a
  else
    let u := (2 ^ (Z.log2 a - 52))%Z in
    let q := (a / u)%Z in
    let r := (a mod u)%Z in
    if (u <? 2 * r)%Z || ((2 * r =? u)%Z && Z.odd q)
    then ((q + 1) * u)%Z else (q * u)%Z.

(** The number that an arithmetic result is stored as. *)
Definition toDouble (z : Z) : Z := (Z.sgn z * roundNat (Z.abs z))%Z.

(** [n + 1] on numbers, the new value of [n] after [n++]. *)
Definition increment (n : Z) : Z := toDouble (n + 1).

(** [Number::toString] on an integer, which is what a template literal
    prints.  Below [2^53] every digit is printed.  From there on the
    digits are those of the shortest significand [s], of [k] digits, for
    which [s * 10^(n-k)] still rounds to the number (the nearest one
    when several do): they are followed by [n-k] zeros when [n <= 21]
    and written in exponent form, [d.ddde+x], beyond. *)
Definition roundsTo (a k n s : Z) : bool :=
  (10 ^ (k - 1) <=? s)%Z && (s <? 10 ^ k)%Z
  && (toDouble (s * 10 ^ (n - k)) =? a)%Z.

Definition candidates (a k : Z) : list (Z * Z) :=
  let d := Z.of_nat (length (decimal a)) in
  filter (fun c => Is_true (roundsTo a k c.2 c.1))
    [ (a / 10 ^ (d - k), d); (a / 10 ^ (d - k) + 1, d);
      (a / 10 ^ (d + 1 - k) + 1, d + 1) ]%Z.

Definition closer (a k : Z) (c1 c2 : Z * Z) : Z * Z :=
  let d1 := Z.abs (c1.1 * 10 ^ (c1.2 - k) - a) in
  let d2 := Z.abs (c2.1 * 10 ^ (c2.2 - k) - a) in
  if (d2 <? d1)%Z || ((d2 =? d1)%Z && Z.even c2.1) then c2 else c1.

Fixpoint shortest (a : Z) (k : Z) (fuel : nat) : Z * Z :=
  match fuel with
  | O => (a, Z.of_nat (length (decimal a)))
  | S fuel' =>
      match candidates a k with
      | c :: cs => foldl (closer a k) c cs
      | [] => shortest a (k + 1) fuel'
      end
  end.

Definition numberToString (z : Z) : jsstring :=
  if (Z.abs z <? 2 ^ 53)%Z then decimal z
  else
    let '(s, n) := shortest (Z.abs z) 1 17 in
    let k := Z.of_nat (length (decimal s)) in
    (if (z <? 0)%Z then lit "-" else []) ++
    (if (n <=? 21)%Z then decimal s ++ replicate (Z.to_nat (n - k)) 48%N
     else
       match decimal s with
       | [] => []
       | [c] => c :: lit "e+" ++ decimal (n - 1)
       | c :: r => c :: 46%N :: r ++ lit "e+" ++ decimal (n - 1)
       end).

(** ** Values

    Form fields and JSON bodies carry JSON values; an absent field is
    [undefined], modelled by [None] at the lookup. *)

Inductive value :=
| VNull
| VBool (b : bool)
| VNum (n : Z)
| VStr (s : jsstring)
| VArr (l : list value)
| VObj (fields : list (jsstring * value)).

(** Truthiness of a possibly undefined value. *)
Definition truthy (v : option value) : bool :=
  match v with
  | None | Some VNull => false
  | Some (VBool b) => b
  | Some (VNum n) => negb (n =? 0)%Z
  | Some (VStr s) => negb (bool_decide (s = []))
  | Some (VArr _) | Some (VObj _) => true
  end.

Fixpoint join (sep : jsstring) (l : list jsstring) : jsstring :=
  match l with
  | [] => []
  | [x] => x
  | x :: l' => x ++ sep ++ join sep l'
  end.

(** [ToString], applied by [parseInt] to its argument. *)
Fixpoint toString (v : value) : jsstring :=
  match v with
  | VNull => lit "null"
  | VBool true => lit "true"
  | VBool false => lit "false"
  | VNum n => numberToString n
  | VStr s => s
  | VArr l =>
      join (lit ",")
        (map (fun x => match x with VNull => [] | _ => toString x end) l)
  | VObj _ => lit "[object Object]"
  end.

Definition toStringOpt (v : option value) : jsstring :=
  match v with
  | Some x => toString x
  | None => lit "undefined"
  end.

(** ** Items and the store *)

Record Item := {
  id : Z;
  inventory_name : value;
  description : value;
  photoFilename : option jsstring   (* [None] is [null] *)
}.

(** A file of the cache directory: a JSON document, given by the array
    of item records that [JSON.parse] returns for it, or any other bytes
    (an uploaded photo, or text that [JSON.parse] rejects).  Text that
    parses to anything but an array of item records has no counterpart
    here. *)
Inductive content :=
| Document (items : list Item)
| Blob (bytes : list N).

(** The process state: the [inventory] array, the [nextId] counter and
    the files of the cache directory, keyed by file name. *)
Record State := {
  inventory : list Item;
  nextId : Z;
  files : gmap jsstring content
}.

Definition INVENTORY_FILE : jsstring := lit "inventory.json".

(** [loadInventory] with the lines it prints through [console.error]. *)
Definition loadInventory (disk : gmap jsstring content)
  : list Item * list jsstring :=
  match disk !! INVENTORY_FILE with
  | None => ([], [])
  | Some (Document items) => (items, [])
  | Some (Blob _) => ([], [lit "Error reading inventory file:"])
  end.

(** [inventory.reduce((max, item) => Math.max(max, item.id), 0)] *)
Definition maxId (inv : list Item) : Z :=
  foldl (fun max item => Z.max max (id item)) 0%Z inv.

Definition initialNextId (inv : list Item) : Z :=
  if bool_decide (0 < length inv)%nat
  then increment (maxId inv)
  else 1%Z.

(** The state after the module has been loaded over a cache directory. *)
Definition startup (disk : gmap jsstring content) : State :=
  let inv := (loadInventory disk).1 in
  {| inventory := inv; nextId := initialNextId inv; files := disk |}.

Definition saveInventory (s : State) : State :=
  {| inventory := inventory s;
     nextId := nextId s;
     files := <[INVENTORY_FILE := Document (inventory s)]> (files s) |}.

(** [item.id === id] *)
Definition hasId (n : number) (item : Item) : Prop := Some (id item) = n.

#[global] Instance hasId_dec n item : Decision (hasId n item).
Proof. unfold hasId. apply _. Defined.

(** [inventory.find] and [inventory.findIndex] in one pass. *)
Definition findEntry (n : number) (inv : list Item) : option (nat * Item) :=
  list_find (hasId n) inv.

Definition findItem (n : number) (inv : list Item) : option Item :=
  snd <$> findEntry n inv.

(** Truthiness of [item.photoFilename]: neither [null] nor empty. *)
Definition photoOf (item : Item) : option jsstring :=
  match photoFilename item with
  | Some f => if bool_decide (f = []) then None else Some f
  | None => None
  end.

(** ** Requests and responses *)

Inductive Method := GET | HEAD | POST | PUT | DELETE | OPTIONS | PATCH | TRACE.

#[global] Instance Method_eq_dec : EqDecision Method.
Proof. solve_decision. Defined.

(** The [photo] file part of a multipart body, with the clock reading
    [Date.now()] taken when multer names it. *)
Record Upload := {
  originalname : jsstring;
  bytes : list N;
  now : Z
}.

(** A request: the path is given by its segments ([/inventory/7/photo]
    is [[inventory; 7; photo]]), the body by its parsed fields. *)
Record Request := {
  method : Method;
  path : list jsstring;
  protocol : jsstring;
  host : jsstring;
  body : gmap jsstring value;
  file : option Upload
}.

Record DTO := {
  dto_id : Z;
  dto_inventory_name : value;
  dto_description : value;
  dto_photo_url : option jsstring
}.

Record SearchResult := {
  res_id : Z;
  res_inventory_name : value;
  res_description : value;
  has_photo : bool;
  photo_url : option jsstring
}.

Inductive Body :=
| BError (error : jsstring)
| BMessage (message : jsstring)
| BItem (d : DTO)
| BList (l : list DTO)
| BSearch (r : SearchResult).

Inductive Response :=
| RJson (status : Z) (b : Body)        (* res.status(n).json(b) *)
| RFile (contentType : jsstring) (c : content)
                                       (* res.status(200).sendFile(photo) *)
| RPage (name : jsstring)              (* res.sendFile of a bundled form *)
| RFault                               (* uncaught exception, answered 500 *)
| RNoRoute.                            (* Express's own 404 page *)

Definition baseUrl (req : Request) : jsstring :=
  protocol req ++ lit "://" ++ host req.

Definition photoLink (req : Request) (item : Item) : jsstring :=
  baseUrl req ++ lit "/inventory/" ++ numberToString (id item)
  ++ lit "/photo".

Definition itemToDTO (req : Request) (item : Item) : DTO :=
  {| dto_id := id item;
     dto_inventory_name := inventory_name item;
     dto_description := description item;
     dto_photo_url :=
       match photoOf item with
       | Some _ => Some (photoLink req item)
       | None => None
       end |}.

(** ** Multer *)

(** [photo_<Date.now()>_<originalname>]; a clock reading is an integer
    far below [2^53], printed with all its digits. *)
Definition uniqueName (u : Upload) : jsstring :=
  lit "photo_" ++ decimal (now u) ++ lit "_" ++ originalname u.

(** [upload.single('photo')]: the file, when there is one, is written to
    the cache directory before the handler runs; the result is
    [req.file.filename]. *)
Definition uploadSingle (req : Request) (s : State)
  : option jsstring * State :=
  match file req with
  | Some u =>
      (Some (uniqueName u),
       {| inventory := inventory s;
          nextId := nextId s;
          files := <[uniqueName u := Blob (bytes u)]> (files s) |})
  | None => (None, s)
  end.

(** ** Handlers

    Each handler receives the route parameters, the request and the
    state, and returns the response with the state it leaves. *)

Abbreviation params := (list (jsstring * jsstring)).

(** [req.params.id] *)
Definition paramId (ps : params) : jsstring :=
  match list_find (fun kv : jsstring * jsstring => kv.1 = lit "id") ps with
  | Some (_, (_, v)) => v
  | None => lit "undefined"
  end.

Definition notFound (msg : string) : Response := RJson 404 (BError (lit msg)).

Definition methodNotAllowed : Response :=
  RJson 405 (BError (lit "Method Not Allowed")).

(** [inventory.push(item)] after [nextId++]. *)
Definition append (item : Item) (s : State) : State :=
  {| inventory := inventory s ++ [item];
     nextId := increment (nextId s);
     files := files s |}.

Definition setInventory (inv : list Item) (s : State) : State :=
  {| inventory := inv; nextId := nextId s; files := files s |}.

Definition unlink (f : jsstring) (s : State) : State :=
  {| inventory := inventory s; nextId := nextId s;
     files := delete f (files s) |}.

(** POST /register *)
Definition register (req : Request) (s0 : State) : Response * State :=
  let '(filename, s) := uploadSingle req s0 in
  let name := body req !! lit "inventory_name" in
  let desc := body req !! lit "description" in
  let required := RJson 400 (BError (lit "inventory_name is required")) in
  if negb (truthy name) then (required, s)
  else
    match name with
    | Some (VStr n) =>
        if bool_decide (trim n = []) then (required, s)
        else
          let newItem :=
            {| id := nextId s;
               inventory_name := VStr (trim n);
               description := if truthy desc then default (VStr []) desc
                              else VStr [];
               photoFilename := filename |} in
          (RJson 201 (BItem (itemToDTO req newItem)),
           saveInventory (append newItem s))
    | _ => (RFault, s)        (* [trim] is not a function *)
    end.

(** GET /inventory *)
Definition listItems (req : Request) (s : State) : Response * State :=
  (RJson 200 (BList (itemToDTO req <$> inventory s)), s).

(** GET /inventory/:id *)
Definition getItem (ps : params) (req : Request) (s : State)
  : Response * State :=
  match findItem (parseInt (paramId ps)) (inventory s) with
  | None => (notFound "Item not found", s)
  | Some item => (RJson 200 (BItem (itemToDTO req item)), s)
  end.

Definition withName (v : option value) (item : Item) : Item :=
  match v with
  | Some x =>
      {| id := id item; inventory_name := x;
         description := description item;
         photoFilename := photoFilename item |}
  | None => item
  end.

Definition withDescription (v : option value) (item : Item) : Item :=
  match v with
  | Some x =>
      {| id := id item; inventory_name := inventory_name item;
         description := x;
         photoFilename := photoFilename item |}
  | None => item
  end.

(** PUT /inventory/:id; the found object is updated in place. *)
Definition updateItem (ps : params) (req : Request) (s : State)
  : Response * State :=
  match findEntry (parseInt (paramId ps)) (inventory s) with
  | None => (notFound "Item not found", s)
  | Some (i, item) =>
      let item' :=
        withDescription (body req !! lit "description")
          (withName (body req !! lit "inventory_name") item) in
      (RJson 200 (BItem (itemToDTO req item')),
       saveInventory (setInventory (<[i := item']> (inventory s)) s))
  end.

(** DELETE /inventory/:id *)
Definition deleteItem (ps : params) (req : Request) (s : State)
  : Response * State :=
  match findEntry (parseInt (paramId ps)) (inventory s) with
  | None => (notFound "Item not found", s)
  | Some (index, removed) =>
      let s1 := saveInventory (setInventory (delete index (inventory s)) s) in
      let s2 :=
        match photoOf removed with
        | Some f => if bool_decide (is_Some (files s1 !! f))
                    then unlink f s1 else s1
        | None => s1
        end in
      (RJson 200 (BMessage (lit "Item deleted")), s2)
  end.

(** POSIX [path.join] on a non-empty directory and a file name, and
    [path.isAbsolute]. *)
Definition pathJoin (dir name : jsstring) : jsstring :=
  dir ++ lit "/" ++ name.

Definition isAbsolute (p : jsstring) : bool :=
  match p with
  | 47%N :: _ => true
  | _ => false
  end.

(** [res.sendFile(photoPath)]: Express refuses a path that is not
    absolute by throwing, otherwise the file is streamed back. *)
Definition sendFile (photoPath : jsstring) (c : content) : Response :=
  if isAbsolute photoPath then RFile (lit "image/jpeg") c else RFault.

(** [v === s] for a string literal [s]. *)
Definition isString (s : jsstring) (v : option value) : bool :=
  match v with
  | Some (VStr x) => bool_decide (x = s)
  | _ => false
  end.

(** POST /search *)
Definition search (req : Request) (s : State) : Response * State :=
  match parseInt (toStringOpt (body req !! lit "id")) with
  | None => (RJson 400 (BError (lit "Invalid id")), s)
  | Some n =>
      match findItem (Some n) (inventory s) with
      | None => (notFound "Item not found", s)
      | Some item =>
          let includePhoto :=
            isString (lit "on") (body req !! lit "has_photo") in
          (RJson 200 (BSearch
             {| res_id := id item;
                res_inventory_name := inventory_name item;
                res_description := description item;
                has_photo := bool_decide (is_Some (photoOf item));
                photo_url :=
                  match photoOf item with
                  | Some _ => if includePhoto then Some (photoLink req item)
                              else None
                  | None => None
                  end |}), s)
      end
  end.

(** PUT /inventory/:id/photo *)
Definition withPhoto (f : jsstring) (item : Item) : Item :=
  {| id := id item; inventory_name := inventory_name item;
     description := description item; photoFilename := Some f |}.

Definition setPhoto (ps : params) (req : Request) (s0 : State)
  : Response * State :=
  let '(filename, s) := uploadSingle req s0 in
  match findEntry (parseInt (paramId ps)) (inventory s) with
  | None => (notFound "Item not found", s)
  | Some (i, item) =>
      match filename with
      | None => (RJson 400 (BError (lit "photo is required")), s)
      | Some f =>
          let item' := withPhoto f item in
          (RJson 200 (BItem (itemToDTO req item')),
           saveInventory (setInventory (<[i := item']> (inventory s)) s))
      end
  end.

(** ** Router

    A layer is a route (a method set, [None] for [app.all], and a path
    pattern) or a path-less [app.use]; its handler answers or calls
    [next()]. *)

Inductive Outcome :=
| Done (r : Response) (s : State)
| Next.

Inductive seg :=
| Lit (s : string)
| Param (name : string).

Inductive Matcher :=
| Route (methods : option (list Method)) (pattern : list seg)
| Use.

Record Layer := {
  matcher : Matcher;
  handler : params -> Request -> State -> Outcome
}.

Definition lower (c : N) : N :=
  if (65 <=? c)%N && (c <=? 90)%N then (c + 32)%N else c.

(** One trailing slash is ignored (routing is not strict). *)
Definition stripSlash (p : list jsstring) : list jsstring :=
  match last p with
  | Some [] => removelast p
  | _ => p
  end.

(** Literal segments compare without regard to case; a parameter takes
    one non-empty segment. *)
Fixpoint matchSegments (pat : list seg) (p : list jsstring) : option params :=
  match pat, p with
  | [], [] => Some []
  | Lit l :: pat', x :: p' =>
      if bool_decide (lower <$> x = lower <$> lit l)
      then matchSegments pat' p' else None
  | Param name :: pat', x :: p' =>
      if bool_decide (x = []) then None
      else cons (lit name, x) <$> matchSegments pat' p'
  | _, _ => None
  end.

Definition matchPath (pat : list seg) (p : list jsstring) : option params :=
  matchSegments pat (stripSlash p).

(** A route registered for GET also serves HEAD unless HEAD has a
    handler of its own. *)
Definition handlesMethod (ms : option (list Method)) (m : Method) : bool :=
  match ms with
  | None => true
  | Some l =>
      let m' := if bool_decide (m = HEAD) && negb (bool_decide (HEAD ∈ l))
                then GET else m in
      bool_decide (m' ∈ l)
  end.

Definition matchLayer (L : Layer) (req : Request) : option params :=
  match matcher L with
  | Use => Some []
  | Route ms pat =>
      if handlesMethod ms (method req) then matchPath pat (path req) else None
  end.

Fixpoint dispatch (stack : list Layer) (req : Request) (s : State)
  : Response * State :=
  match stack with
  | [] => (RNoRoute, s)
  | L :: rest =>
      match matchLayer L req with
      | Some ps =>
          match handler L ps req s with
          | Done r s' => (r, s')
          | Next => dispatch rest req s
          end
      | None => dispatch rest req s
      end
  end.

Definition answer (h : params -> Request -> State -> Response * State)
  : params -> Request -> State -> Outcome :=
  fun ps req s => let '(r, s') := h ps req s in Done r s'.

(** The [app.all] guards: listed methods fall through, others get 405. *)
Definition allow (ms : list Method) : params -> Request -> State -> Outcome :=
  fun _ req s =>
    if bool_decide (method req ∈ ms) then Next else Done methodNotAllowed s.

Definition page (name : string) : params -> Request -> State -> Outcome :=
  fun _ _ s => Done (RPage (lit name)) s.

Section Server.

(** [options.cache], the cache directory given on the command line. *)
Variable cache : jsstring.

(** GET /inventory/:id/photo *)
Definition getPhoto (ps : params) (req : Request) (s : State)
  : Response * State :=
  match findItem (parseInt (paramId ps)) (inventory s) with
  | None => (notFound "Photo not found", s)
  | Some item =>
      match photoOf item with
      | None => (notFound "Photo not found", s)
      | Some f =>
          match files s !! f with
          | None => (notFound "Photo file not found", s)
          | Some c => (sendFile (pathJoin cache f) c, s)
          end
      end
  end.

(** The route stack, in registration order. *)
Definition app : list Layer :=
  [ {| matcher := Route (Some [GET]) [Lit "RegisterForm.html"];
       handler := page "RegisterForm.html" |};
    {| matcher := Route (Some [GET]) [Lit "SearchForm.html"];
       handler := page "SearchForm.html" |};
    {| matcher := Route (Some [POST]) [Lit "register"];
       handler := answer (fun _ => register) |};
    {| matcher := Route None [Lit "register"];
       handler := allow [POST] |};
    {| matcher := Route (Some [GET]) [Lit "inventory"];
       handler := answer (fun _ => listItems) |};
    {| matcher := Route None [Lit "inventory"];
       handler := allow [GET] |};
    {| matcher := Route (Some [GET]) [Lit "inventory"; Param "id"];
       handler := answer getItem |};
    {| matcher := Route (Some [PUT]) [Lit "inventory"; Param "id"];
       handler := answer updateItem |};
    {| matcher := Route (Some [DELETE]) [Lit "inventory"; Param "id"];
       handler := answer deleteItem |};
    {| matcher := Route None [Lit "inventory"; Param "id"];
       handler := allow [GET; PUT; DELETE] |};
    {| matcher := Route (Some [GET]) [Lit "inventory"; Param "id"; Lit "photo"];
       handler := answer getPhoto |};
    {| matcher := Route (Some [PUT]) [Lit "inventory"; Param "id"; Lit "photo"];
       handler := answer setPhoto |};
    {| matcher := Route None [Lit "inventory"; Param "id"; Lit "photo"];
       handler := allow [GET; PUT] |};
    {| matcher := Route (Some [POST]) [Lit "search"];
       handler := answer (fun _ => search) |};
    {| matcher := Route None [Lit "search"];
       handler := allow [POST] |};
    {| matcher := Use;
       handler := fun _ _ s => Done (RJson 404 (BError (lit "Not Found"))) s |} ].

Definition handle (req : Request) (s : State) : Response * State :=
  dispatch app req s.

(** The state after a sequence of requests. *)
Definition run (reqs : list Request) (s : State) : State :=
  foldl (fun st req => (handle req st).2) s reqs.

End Server.

(** ** Notions used in the statements *)

(** The five paths of the API with the methods their [app.all] guard
    lets through. *)
Definition registerPath : list seg := [Lit "register"].
Definition inventoryPath : list seg := [Lit "inventory"].
Definition itemPath : list seg := [Lit "inventory"; Param "id"].
Definition photoPath : list seg := [Lit "inventory"; Param "id"; Lit "photo"].
Definition searchPath : list seg := [Lit "search"].

Definition routes : list (list seg * list Method) :=
  [ (registerPath, [POST]);
    (inventoryPath, [GET]);
    (itemPath, [GET; PUT; DELETE]);
    (photoPath, [GET; PUT]);
    (searchPath, [POST]) ].

Definition formPaths : list (list seg) :=
  [ [Lit "RegisterForm.html"]; [Lit "SearchForm.html"] ].

(** Two patterns that no path can match together: different lengths, or
    different literals at some position. *)
Fixpoint exclusive (p1 p2 : list seg) : bool :=
  match p1, p2 with
  | [], [] => false
  | Lit a :: r1, Lit b :: r2 =>
      negb (bool_decide (lower <$> lit a = lower <$> lit b)) || exclusive r1 r2
  | _ :: r1, _ :: r2 => exclusive r1 r2
  | _, _ => true
  end.

(** A request that changed the store: 201, or 200 to PUT or DELETE. *)
Definition isMutation (req : Request) (r : Response) : bool :=
  match r with
  | RJson 201 _ => true
  | RJson 200 _ => bool_decide (method req ∈ [PUT; DELETE])
  | _ => false
  end.

(** Every id in the store is below the counter. *)
Definition belowCounter (s : State) : Prop :=
  Forall (fun it => (id it < nextId s)%Z) (inventory s).

(** A decimal integer and nothing else (white space around it apart):
    the reading of "numeric" that rejects trailing text. *)
Definition isNumericText (s : jsstring) : bool :=
  let r := (signOf (trim s)).2 in
  negb (bool_decide (r = [])) && forallb isDigit r.

(** A name that is missing or empty (any falsy field), or made of white
    space only. *)
Definition blankName (v : option value) : Prop :=
  truthy v = false \/
  exists n, v = Some (VStr n) /\ forallb isWhiteSpace n = true.

(** What handling a request does to the state: nothing beyond storing an
    upload, or one of the three writes, each followed by
    [saveInventory]. *)
Inductive Effect (req : Request) (s : State) : Response * State -> Prop :=
| Quiet r s1 :
    s1 = s \/ s1 = (uploadSingle req s).2 ->
    isMutation req r = false ->
    Effect req s (r, s1)
| Created item :
    method req = POST ->
    id item = nextId s ->
    photoFilename item = (uploadSingle req s).1 ->
    Effect req s
      (RJson 201 (BItem (itemToDTO req item)),
       saveInventory (append item (uploadSingle req s).2))
| Replaced i item item' s1 :
    method req = PUT ->
    s1 = s \/ s1 = (uploadSingle req s).2 ->
    inventory s !! i = Some item ->
    id item' = id item ->
    photoFilename item' = photoFilename item \/
      (exists u, file req = Some u /\ photoFilename item' = Some (uniqueName u)) ->
    Effect req s
      (RJson 200 (BItem (itemToDTO req item')),
       saveInventory (setInventory (<[i := item']> (inventory s)) s1))
| Deleted ps i removed :
    method req = DELETE ->
    matchPath itemPath (path req) = Some ps ->
    findEntry (parseInt (paramId ps)) (inventory s) = Some (i, removed) ->
    Effect req s (deleteItem ps req s).

(** The counter is what the startup formula gives for the present
    store. *)
Definition tight (s : State) : Prop :=
  nextId s = initialNextId (inventory s).

(** The counter is a positive number and is not behind what the startup
    formula gives for the present store. *)
Definition counterSound (s : State) : Prop :=
  (0 < nextId s)%Z /\ toDouble (nextId s) = nextId s /\
  (initialNextId (inventory s) <= nextId s)%Z.

(** The request is a DELETE that takes the highest id out of the store:
    the item it removes has a positive id that is above the id of every
    other item. *)
Definition removesHighest (req : Request) (s : State) : bool :=
  bool_decide (method req = DELETE) &&
  match matchPath itemPath (path req) with
  | Some ps =>
      match findEntry (parseInt (paramId ps)) (inventory s) with
      | Some (i, removed) =>
          (0 <? id removed)%Z &&
          forallb (fun it => (id it <? id removed)%Z) (delete i (inventory s))
      | None => false
      end
  | None => false
  end.

(** No request of the run takes the highest id out of the store. *)
Fixpoint highestKept (cache : jsstring) (reqs : list Request) (s : State)
  : bool :=
  match reqs with
  | [] => true
  | req :: reqs' =>
      negb (removesHighest req s)
      && highestKept cache reqs' (handle cache req s).2
  end.

(** The inventory file holds the present store. *)
Definition persisted (s : State) : Prop :=
  files s !! INVENTORY_FILE = Some (Document (inventory s)).

(** No item's photo reference names the inventory file. *)
Definition ownPhotos (s : State) : Prop :=
  Forall (fun it => photoOf it <> Some INVENTORY_FILE) (inventory s).

Definition matches (pat : list seg) (p : list jsstring) : bool :=
  bool_decide (is_Some (matchPath pat p)).

(** The path is one of the five API paths. *)
Definition recognized (p : list jsstring) : bool :=
  existsb (fun r => matches r.1 p) routes.

(** The path is one of the two bundled forms. *)
Definition formPage (p : list jsstring) : bool :=
  existsb (fun pat => matches pat p) formPaths.

(** ** Sample data *)

Definition sampleCache : jsstring := lit "/srv/cache".

Definition request (m : Method) (p : list jsstring)
    (b : gmap jsstring value) (f : option Upload) : Request :=
  {| method := m; path := p; protocol := lit "http";
     host := lit "localhost:3000"; body := b; file := f |}.

Definition drill : Item :=
  {| id := 1; inventory_name := VStr (lit "Drill");
     description := VStr []; photoFilename := None |}.

Definition oneDrill : State :=
  {| inventory := [drill]; nextId := 2; files := ∅ |}.

(** A photo on disk for the drill, and the request that fetches it. *)
Definition drillPhoto : jsstring := lit "photo_1700000000000_drill.jpg".

Definition drillWithPhoto : State :=
  {| inventory := [withPhoto drillPhoto drill]; nextId := 2;
     files := {[ drillPhoto := Blob [255; 216; 255]%N ]} |}.

Definition getDrillPhoto : Request :=
  request GET [lit "inventory"; lit "1"; lit "photo"] ∅ None.

Definition registerReq (name : string) : Request :=
  request POST [lit "register"] {[ lit "inventory_name" := VStr (lit name) ]} None.

Definition deleteReq (n : string) : Request :=
  request DELETE [lit "inventory"; lit n] ∅ None.

Definition searchReq (n : string) : Request :=
  request POST [lit "search"]
    {[ lit "id" := VStr (lit n); lit "has_photo" := VStr (lit "on") ]} None.

Definition saw : DTO :=
  {| dto_id := 2; dto_inventory_name := VStr (lit "Saw");
     dto_description := VStr []; dto_photo_url := None |}.

Definition newPhoto : Upload :=
  {| originalname := lit "drill2.jpg"; bytes := [255; 216]%N;
     now := 1700000000999 |}.

Definition putPhotoReq : Request :=
  request PUT [lit "inventory"; lit "1"; lit "photo"] ∅ (Some newPhoto).

Definition putDescriptionReq : Request :=
  request PUT [lit "inventory"; lit "1"] {[ lit "description" := VStr [] ]} None.

(** A cache directory whose inventory file is not JSON. *)
Definition corruptDisk : gmap jsstring content :=
  {[ INVENTORY_FILE := Blob (lit "[{oops") ]}.

(** A cache directory whose inventory file holds one item, under the
    last id below [2^53] ([Number.MAX_SAFE_INTEGER]). *)
Definition anvil : Item :=
  {| id := 2 ^ 53 - 1; inventory_name := VStr (lit "Anvil");
     description := VStr []; photoFilename := None |}.

Definition anvilDisk : gmap jsstring content :=
  {[ INVENTORY_FILE := Document [anvil] ]}.

(** ** Notions used in the further statements *)

(** The response of a successful register. *)
Definition isCreated (r : Response) : bool :=
  match r with
  | RJson 201 _ => true
  | _ => false
  end.

(** The response of a successful delete. *)
Definition isDeleted (req : Request) (r : Response) : bool :=
  match r with
  | RJson 200 _ => bool_decide (method req = DELETE)
  | _ => false
  end.

(** The same request sent with another method. *)
Definition withMethod (m : Method) (req : Request) : Request :=
  {| method := m; path := path req; protocol := protocol req;
     host := host req; body := body req; file := file req |}.

(** The responses the handlers can give: an error body goes with 400,
    404 or 405, an item with 200 or 201, every other JSON body with
    200, a file is sent as [image/jpeg]. *)
Definition wellShaped (r : Response) : Prop :=
  match r with
  | RJson st (BError _) => st ∈ [400; 404; 405]%Z
  | RJson st (BItem _) => st ∈ [200; 201]%Z
  | RJson st _ => st = 200%Z
  | RFile ct _ => ct = lit "image/jpeg"
  | RPage _ | RFault => True
  | RNoRoute => False
  end.

(** ** Further sample data *)

Definition getReq (p : list jsstring) : Request := request GET p ∅ None.

Definition registerPhotoReq (name : string) : Request :=
  request POST [lit "register"] {[ lit "inventory_name" := VStr (lit name) ]}
    (Some newPhoto).


(** An upload with the name and clock reading of [newPhoto] and other
    bytes. *)
Definition samePhotoName : Upload :=
  {| originalname := lit "drill2.jpg"; bytes := [137; 80]%N;
     now := 1700000000999 |}.

Definition sawItem : Item :=
  {| id := 2; inventory_name := VStr (lit "Saw");
     description := VStr []; photoFilename := Some drillPhoto |}.

(** Two items that refer to one photo file. *)
Definition sharedPhoto : State :=
  {| inventory := [withPhoto drillPhoto drill; sawItem]; nextId := 3;
     files := {[ drillPhoto := Blob [255; 216; 255]%N ]} |}.

Definition threeRequests : list Request :=
  [registerReq "Drill"; registerReq "Saw"; deleteReq "2"].

(** * Properties *)

(** ** Strings *)

Lemma trimStart_nil s : trimStart s = [] <-> forallb isWhiteSpace s = true.
Proof.
  induction s as [|c s IH]; simpl; [done|].
  destruct (isWhiteSpace c); simpl; [done|]. split; discriminate.
Qed.

Lemma forallb_reverse {A} (f : A -> bool) l :
  forallb f (reverse l) = forallb f l.
Proof.
  induction l as [|x l IH]; [done|].
  rewrite reverse_cons, forallb_app, IH. simpl.
  rewrite andb_true_r. apply andb_comm.
Qed.

Lemma trimStart_blank_suffix s :
  forallb isWhiteSpace (trimStart s) = forallb isWhiteSpace s.
Proof.
  induction s as [|c s IH]; simpl; [done|].
  destruct (isWhiteSpace c) eqn:E; simpl; [done|]. by rewrite E.
Qed.

(** [trim] leaves nothing exactly for the strings made of white space. *)
Lemma trim_nil s : trim s = [] <-> forallb isWhiteSpace s = true.
Proof.
  unfold trim, trimEnd.
  rewrite <- trimStart_blank_suffix, <- (forallb_reverse _ (trimStart s)).
  rewrite <- trimStart_nil. split.
  - intros H. apply (f_equal reverse) in H.
    by rewrite reverse_involutive in H.
  - intros ->. done.
Qed.

Lemma uniqueName_not_inventory u : uniqueName u <> INVENTORY_FILE.
Proof. unfold uniqueName, INVENTORY_FILE. simpl. discriminate. Qed.

(** ** Numbers *)

Section Numbers.

Local Open Scope Z_scope.

Lemma pow2_shift e k : 0 <= e -> 0 <= k -> 2 ^ (e + k) = 2 ^ k * 2 ^ e.
Proof. intros. rewrite Z.pow_add_r by lia. apply Z.mul_comm. Qed.

(** What [roundNat] does from [2^53] on: the exponent [e] of the unit
    and the significand [q] it keeps. *)
Lemma roundNat_big a :
  2 ^ 53 <= a ->
  exists e q,
    1 <= e /\ 2 ^ 52 <= q <= 2 ^ 53 /\ roundNat a = q * 2 ^ e /\
    2 ^ (e + 52) <= a < 2 ^ (e + 53) /\
    (q = a / 2 ^ e \/ q = a / 2 ^ e + 1) /\
    e = Z.log2 a - 52.
Proof.
  intros Ha. unfold roundNat.
  destruct (Z.ltb_spec a (2 ^ 53)) as [?|_]; [lia|].
  assert (Hpos : 0 < a) by lia.
  destruct (Z.log2_spec a Hpos) as [Hlo Hhi].
  assert (Hlog : 53 <= Z.log2 a).
  { apply Z.log2_le_pow2; lia. }
  set (e := Z.log2 a - 52) in *.
  assert (He : 1 <= e) by lia.
  assert (Hu : 0 < 2 ^ e) by (apply Z.pow_pos_nonneg; lia).
  assert (E1 : 2 ^ (e + 52) = 2 ^ Z.log2 a) by (f_equal; lia).
  assert (E2 : 2 ^ (e + 53) = 2 ^ Z.succ (Z.log2 a)) by (f_equal; lia).
  pose proof (pow2_shift e 52 ltac:(lia) ltac:(lia)) as P1.
  pose proof (pow2_shift e 53 ltac:(lia) ltac:(lia)) as P2.
  assert (Hq : 2 ^ 52 <= a / 2 ^ e < 2 ^ 53).
  { split.
    - apply Z.div_le_lower_bound; lia.
    - apply Z.div_lt_upper_bound; lia. }
  exists e.
  destruct (_ || _).
  - exists (a / 2 ^ e + 1). split_and!; lia.
  - exists (a / 2 ^ e). split_and!; lia.
Qed.

Lemma roundNat_small a : a < 2 ^ 53 -> roundNat a = a.
Proof.
  intros Ha. unfold roundNat.
  by destruct (Z.ltb_spec a (2 ^ 53)) as [_|?]; [|lia].
Qed.

Lemma roundNat_lower a : 2 ^ 53 <= a -> 2 ^ 53 <= roundNat a.
Proof.
  intros Ha. destruct (roundNat_big a Ha) as (e & q & He & Hq & -> & _).
  assert (2 ^ 1 <= 2 ^ e) by (apply Z.pow_le_mono_r; lia).
  change (2 ^ 53) with (2 ^ 52 * 2 ^ 1) at 1. nia.
Qed.

Lemma roundNat_nonneg a : 0 <= a -> 0 <= roundNat a.
Proof.
  intros Ha. destruct (Z.lt_ge_cases a (2 ^ 53)) as [Hs|Hb].
  - by rewrite roundNat_small.
  - pose proof (roundNat_lower a Hb). lia.
Qed.

Lemma roundNat_mono a b : 0 <= a <= b -> roundNat a <= roundNat b.
Proof.
  intros [Ha Hab].
  destruct (Z.lt_ge_cases b (2 ^ 53)) as [Hb|Hb].
  { rewrite !roundNat_small by lia. lia. }
  destruct (Z.lt_ge_cases a (2 ^ 53)) as [Ha'|Ha'].
  { rewrite (roundNat_small a) by lia. pose proof (roundNat_lower b Hb). lia. }
  unfold roundNat.
  destruct (Z.ltb_spec a (2 ^ 53)) as [?|_]; [lia|].
  destruct (Z.ltb_spec b (2 ^ 53)) as [?|_]; [lia|].
  destruct (roundNat_big a Ha') as (ea & qa & Hea & Hqa & _ & Hba & _ & Ea).
  destruct (roundNat_big b Hb) as (eb & qb & Heb & Hqb & _ & Hbb & _ & Eb).
  rewrite <- Ea, <- Eb.
  assert (Hle : ea <= eb).
  { pose proof (Z.log2_le_mono a b Hab). lia. }
  assert (Hua : 0 < 2 ^ ea) by (apply Z.pow_pos_nonneg; lia).
  assert (Hub : 0 < 2 ^ eb) by (apply Z.pow_pos_nonneg; lia).
  pose proof (pow2_shift ea 53 ltac:(lia) ltac:(lia)) as Pa.
  pose proof (pow2_shift eb 52 ltac:(lia) ltac:(lia)) as Pb.
  pose proof (pow2_shift eb 53 ltac:(lia) ltac:(lia)) as Pb'.
  pose proof (pow2_shift ea 52 ltac:(lia) ltac:(lia)) as Pa'.
  assert (Hqa' : 2 ^ 52 <= a / 2 ^ ea < 2 ^ 53).
  { split; [apply Z.div_le_lower_bound|apply Z.div_lt_upper_bound]; lia. }
  assert (Hqb' : 2 ^ 52 <= b / 2 ^ eb < 2 ^ 53).
  { split; [apply Z.div_le_lower_bound|apply Z.div_lt_upper_bound]; lia. }
  assert (Ra : forall x : bool,
             (if x then (a / 2 ^ ea + 1) * 2 ^ ea else a / 2 ^ ea * 2 ^ ea)
             <= 2 ^ 53 * 2 ^ ea) by (intros []; nia).
  assert (Rb : forall x : bool,
             2 ^ 52 * 2 ^ eb
             <= (if x then (b / 2 ^ eb + 1) * 2 ^ eb else b / 2 ^ eb * 2 ^ eb))
    by (intros []; nia).
  destruct (Z.eq_dec ea eb) as [Heq|Hne].
  - rewrite <- Heq in *. clear Rb Hqb' Pb Hub.
    set (u := 2 ^ ea) in *.
    pose proof (Z.div_mod a u ltac:(lia)) as Da.
    pose proof (Z.div_mod b u ltac:(lia)) as Db.
    pose proof (Z.mod_pos_bound a u Hua) as Ma.
    pose proof (Z.mod_pos_bound b u Hua) as Mb.
    assert (Hq : a / u <= b / u) by (apply Z.div_le_mono; lia).
    destruct (Z.eq_dec (a / u) (b / u)) as [Eq|Nq].
    + rewrite <- Eq in *. assert (a mod u <= b mod u) by lia.
      destruct (Z.ltb_spec u (2 * (a mod u))), (Z.ltb_spec u (2 * (b mod u)));
        destruct (Z.eqb_spec (2 * (a mod u)) u), (Z.eqb_spec (2 * (b mod u)) u);
        destruct (Z.odd (a / u)); simpl; nia.
    + assert (a / u + 1 <= b / u) by lia.
      destruct (_ || _), (_ || _); nia.
  - assert (Hlt : ea + 1 <= eb) by lia.
    assert (2 ^ (ea + 53) <= 2 ^ (eb + 52)) by (apply Z.pow_le_mono_r; lia).
    specialize (Ra ((2 ^ ea <? 2 * (a mod 2 ^ ea)) ||
                    (2 * (a mod 2 ^ ea) =? 2 ^ ea) && Z.odd (a / 2 ^ ea))).
    specialize (Rb ((2 ^ eb <? 2 * (b mod 2 ^ eb)) ||
                    (2 * (b mod 2 ^ eb) =? 2 ^ eb) && Z.odd (b / 2 ^ eb))).
    lia.
Qed.

Lemma roundNat_idem a : 0 <= a -> roundNat (roundNat a) = roundNat a.
Proof.
  intros Ha. destruct (Z.lt_ge_cases a (2 ^ 53)) as [Hs|Hb].
  { by rewrite !(roundNat_small a Hs). }
  pose proof (roundNat_lower a Hb) as Hlow.
  destruct (roundNat_big a Hb) as (e & q & He & Hq & Hr & _).
  rewrite Hr in *. clear Hr.
  assert (Hu : 0 < 2 ^ e) by (apply Z.pow_pos_nonneg; lia).
  assert (2 ^ 1 <= 2 ^ e) by (apply Z.pow_le_mono_r; lia).
  unfold roundNat.
  destruct (Z.ltb_spec (q * 2 ^ e) (2 ^ 53)) as [?|_]; [lia|].
  destruct (Z.eq_dec q (2 ^ 53)) as [->|Hq'].
  - assert (Hl : Z.log2 (2 ^ 53 * 2 ^ e) = e + 53).
    { rewrite <- Z.pow_add_r by lia. rewrite Z.log2_pow2 by lia. lia. }
    rewrite Hl. replace (e + 53 - 52) with (e + 1) by lia.
    assert (E : 2 ^ 53 * 2 ^ e = 2 ^ 52 * 2 ^ (e + 1)).
    { rewrite (Z.pow_add_r 2 e 1) by lia. lia. }
    rewrite E.
    assert (Hu' : 0 < 2 ^ (e + 1)) by (apply Z.pow_pos_nonneg; lia).
    rewrite Z.div_mul by lia. rewrite Z.mod_mul by lia.
    destruct (Z.ltb_spec (2 ^ (e + 1)) (2 * 0)); [lia|].
    destruct (Z.eqb_spec (2 * 0) (2 ^ (e + 1))); [lia|]. done.
  - assert (Hl : Z.log2 (q * 2 ^ e) = e + 52).
    { apply Z.log2_unique; [lia|].
      replace (Z.succ (e + 52)) with (e + 53) by lia.
      rewrite !Z.pow_add_r by lia. nia. }
    rewrite Hl. replace (e + 52 - 52) with e by lia.
    rewrite Z.div_mul by lia. rewrite Z.mod_mul by lia.
    destruct (Z.ltb_spec (2 ^ e) (2 * 0)); [lia|].
    destruct (Z.eqb_spec (2 * 0) (2 ^ e)); [lia|]. done.
Qed.

(** The integers a double counts exactly. *)
Lemma toDouble_safe z : - 2 ^ 53 < z < 2 ^ 53 -> toDouble z = z.
Proof.
  intros Hz. unfold toDouble. rewrite roundNat_small by lia. lia.
Qed.

Lemma toDouble_mono a b : a <= b -> toDouble a <= toDouble b.
Proof.
  intros Hab. unfold toDouble.
  pose proof (roundNat_nonneg (Z.abs a) (Z.abs_nonneg a)).
  pose proof (roundNat_nonneg (Z.abs b) (Z.abs_nonneg b)).
  destruct (Z.sgn_spec a) as [[? ->]|[[? ->]|[? ->]]],
           (Z.sgn_spec b) as [[? ->]|[[? ->]|[? ->]]]; try lia.
  - pose proof (roundNat_mono (Z.abs a) (Z.abs b)). lia.
  - pose proof (roundNat_mono (Z.abs b) (Z.abs a)). lia.
Qed.

Lemma toDouble_idem z : toDouble (toDouble z) = toDouble z.
Proof.
  unfold toDouble.
  pose proof (roundNat_nonneg (Z.abs z) (Z.abs_nonneg z)) as Hn.
  pose proof (roundNat_idem (Z.abs z) (Z.abs_nonneg z)) as Hi.
  destruct (Z.sgn_spec z) as [[? ->]|[[? ->]|[? ->]]].
  - rewrite Z.mul_1_l. destruct (Z.eq_dec (roundNat (Z.abs z)) 0) as [->|Hne];
      [done|].
    rewrite Z.sgn_pos, Z.abs_eq by lia. by rewrite Z.mul_1_l.
  - done.
  - destruct (Z.eq_dec (roundNat (Z.abs z)) 0) as [->|Hne]; [done|].
    rewrite Z.sgn_neg by lia.
    assert (E : Z.abs (- (1) * roundNat (Z.abs z)) = roundNat (Z.abs z)) by lia.
    rewrite E, Hi. lia.
Qed.

Lemma toDouble_pos z : 0 < z -> 0 < toDouble z.
Proof.
  intros Hz. pose proof (toDouble_mono 1 z ltac:(lia)) as H.
  rewrite (toDouble_safe 1) in H by lia. lia.
Qed.

Lemma toDouble_below z : toDouble z < 2 ^ 53 -> z < 2 ^ 53.
Proof.
  intros Hz. destruct (Z.lt_ge_cases z (2 ^ 53)) as [|Hb]; [done|].
  pose proof (toDouble_mono _ _ Hb) as H.
  change (toDouble (2 ^ 53)) with (2 ^ 53) in H. lia.
Qed.

Lemma toDouble_safe_le z : - 2 ^ 53 <= z <= 2 ^ 53 -> toDouble z = z.
Proof.
  intros Hz.
  destruct (Z.eq_dec z (2 ^ 53)) as [->|?]; [done|].
  destruct (Z.eq_dec z (- 2 ^ 53)) as [->|?]; [done|].
  apply toDouble_safe. lia.
Qed.

Lemma increment_safe n : - 2 ^ 53 <= n + 1 <= 2 ^ 53 -> increment n = n + 1.
Proof. apply toDouble_safe_le. Qed.

(** A counter that is below [2^53] after [++] has been moved by one. *)
Lemma increment_below n :
  0 <= n -> increment n < 2 ^ 53 -> increment n = n + 1 /\ n + 1 < 2 ^ 53.
Proof.
  intros Hn Hlt. pose proof (toDouble_below _ Hlt).
  split; [|done]. apply increment_safe. lia.
Qed.

Lemma increment_mono a b : a <= b -> increment a <= increment b.
Proof. intros. apply toDouble_mono. lia. Qed.

Lemma increment_pos n : 0 <= n -> 0 < increment n.
Proof. intros. apply toDouble_pos. lia. Qed.

Lemma increment_double n : toDouble (increment n) = increment n.
Proof. apply toDouble_idem. Qed.

(** [++] never takes a number down. *)
Lemma increment_ge n : toDouble n = n -> n <= increment n.
Proof.
  intros Hn. rewrite <- Hn at 1. apply toDouble_mono. lia.
Qed.

(** Below [2^53] a number is printed with all its digits. *)
Lemma numberToString_safe z : Z.abs z < 2 ^ 53 -> numberToString z = decimal z.
Proof.
  intros Hz. unfold numberToString.
  by destruct (Z.ltb_spec (Z.abs z) (2 ^ 53)) as [_|?]; [|lia].
Qed.

End Numbers.

(** ** Decimal rendering and [parseInt] *)

Lemma lit_cons c s : lit (String c s) = N_of_ascii c :: lit s.
Proof. done. Qed.

Ltac head_digit :=
  rewrite lit_cons;
  match goal with
  | |- context [N_of_ascii ?c] =>
      let n := eval vm_compute in (N_of_ascii c) in
      change (N_of_ascii c) with n
  end;
  cbn [digits]; change (isDigit _) with true; cbv match.

Lemma digits_of_uint_acc d acc :
  digits (Z.pos acc) (lit (NilEmpty.string_of_uint d))
  = Z.pos (Pos.of_uint_acc d acc).
Proof.
  revert acc. induction d as [|d IH|d IH|d IH|d IH|d IH|d IH|d IH|d IH|d IH|d IH];
    intros acc; [done|..];
    cbn [NilEmpty.string_of_uint Pos.of_uint_acc]; head_digit;
    rewrite <- IH; f_equal; lia.
Qed.

Lemma digits_of_uint d :
  digits 0 (lit (NilEmpty.string_of_uint d)) = Z.of_N (Pos.of_uint d).
Proof.
  induction d as [|d IH|d IH|d IH|d IH|d IH|d IH|d IH|d IH|d IH|d IH];
    [done|..];
    cbn [NilEmpty.string_of_uint Pos.of_uint]; head_digit; [exact IH|..];
    cbn [Z.of_N]; rewrite <- digits_of_uint_acc; f_equal.
Qed.

(** A numeral starts with a digit. *)
Lemma string_of_uint_head d :
  d <> Decimal.Nil ->
  exists c r, lit (NilEmpty.string_of_uint d) = c :: r /\ isDigit c = true.
Proof.
  destruct d; [done|..]; intros _; eexists _, _;
    cbn [NilEmpty.string_of_uint]; rewrite lit_cons; by split.
Qed.

Lemma isDigit_plain c :
  isDigit c = true ->
  isWhiteSpace c = false /\ (c =? 45)%N = false /\ (c =? 43)%N = false.
Proof.
  unfold isDigit, isWhiteSpace. intros [H1 H2]%andb_true_iff.
  apply N.leb_le in H1, H2. simpl.
  repeat match goal with
         | |- context [(?a =? ?b)%N] => rewrite (proj2 (N.eqb_neq a b)) by lia
         end.
  rewrite (proj2 (N.leb_gt 8192 c)) by lia. done.
Qed.

Lemma parseInt_numeral d :
  d <> Decimal.Nil ->
  (let t := lit (NilEmpty.string_of_uint d) in
   signOf t = (1%Z, t)) /\
  parseInt (lit (NilEmpty.string_of_uint d)) = Some (Z.of_N (Pos.of_uint d)) /\
  parseInt (45%N :: lit (NilEmpty.string_of_uint d))
    = Some (- Z.of_N (Pos.of_uint d))%Z.
Proof.
  intros Hd. pose proof (digits_of_uint d) as Hval.
  destruct (string_of_uint_head d Hd) as (c & r & Hs & Hc).
  destruct (isDigit_plain c Hc) as (Hw & Hm & Hp).
  unfold parseInt. rewrite Hs in *. simpl. rewrite Hw. simpl.
  rewrite !Hm, !Hp, !Hc. rewrite !Hval.
  simpl in Hval. rewrite Hc in Hval. rewrite ?Hval.
  split_and!; [done|f_equal; lia|f_equal; lia].
Qed.

(** Reading back the decimal rendering of an id gives the id. *)
Lemma parseInt_decimal z : parseInt (decimal z) = Some z.
Proof.
  unfold decimal. destruct z as [|p|p]; [done|..]; simpl.
  - pose proof (Unsigned.to_uint_nonnil p) as Hnil.
    destruct (parseInt_numeral (Pos.to_uint p) Hnil) as (_ & H & _).
    unfold NilZero.string_of_uint. destruct (Pos.to_uint p) eqn:E; [done|..];
      rewrite <- E in *; rewrite H, Unsigned.of_to; done.
  - pose proof (Unsigned.to_uint_nonnil p) as Hnil.
    destruct (parseInt_numeral (Pos.to_uint p) Hnil) as (_ & _ & H).
    rewrite lit_cons.
    unfold NilZero.string_of_uint. destruct (Pos.to_uint p) eqn:E; [done|..];
      rewrite <- E in *; change (N_of_ascii "-") with 45%N;
      rewrite H, Unsigned.of_to; done.
Qed.

(** ** Routing *)

Lemma matchSegments_length pat q ps :
  matchSegments pat q = Some ps -> length q = length pat.
Proof.
  revert q ps. induction pat as [|[l|name] pat IH]; intros [|x q] ps; simpl;
    try discriminate; [done| |].
  - case_bool_decide; [|discriminate]. intros Hq. f_equal. eauto.
  - case_bool_decide; [discriminate|].
    destruct (matchSegments pat q) eqn:E; [|discriminate].
    intros _. f_equal. eauto.
Qed.

Lemma matchSegments_exclusive p1 p2 q ps :
  matchSegments p1 q = Some ps -> exclusive p1 p2 = true ->
  matchSegments p2 q = None.
Proof.
  revert p2 q ps.
  induction p1 as [|[a|n1] p1 IH]; intros [|[b|n2] p2] [|x q] ps; simpl;
    try discriminate; try done.
  - case_bool_decide as Ha; [|discriminate]. intros Hm.
    case_bool_decide as Hab; simpl.
    + intros Hex. case_bool_decide; [|done]. eauto.
    + intros _. case_bool_decide; [|done]. congruence.
  - case_bool_decide; [|discriminate]. intros Hm Hex.
    case_bool_decide; [done|]. by rewrite (IH _ _ _ Hm Hex).
  - case_bool_decide; [discriminate|].
    destruct (matchSegments p1 q) eqn:E; [|discriminate]. intros _ Hex.
    case_bool_decide; [|done]. eauto.
  - case_bool_decide; [discriminate|].
    destruct (matchSegments p1 q) eqn:E; [|discriminate]. intros _ Hex.
    by rewrite (IH _ _ _ E Hex).
Qed.

Lemma matchPath_exclusive p1 p2 p ps :
  matchPath p1 p = Some ps -> exclusive p1 p2 = true -> matchPath p2 p = None.
Proof. apply matchSegments_exclusive. Qed.

(** The parameter of a matched item or photo path is its second
    segment. *)
Lemma matchPath_item p ps :
  matchPath itemPath p = Some ps ->
  exists a x, stripSlash p = [a; x] /\ x <> [] /\ ps = [(lit "id", x)].
Proof.
  unfold matchPath, itemPath. destruct (stripSlash p) as [|a [|x [|y q]]];
    simpl; try discriminate.
  - by case_bool_decide.
  - case_bool_decide; [|discriminate]. case_bool_decide; [discriminate|].
    intros [= <-]. eauto.
  - case_bool_decide; [|discriminate]. by case_bool_decide.
Qed.

Lemma matchPath_photo p ps :
  matchPath photoPath p = Some ps ->
  exists a x b, stripSlash p = [a; x; b] /\ x <> [] /\ ps = [(lit "id", x)].
Proof.
  unfold matchPath, photoPath. destruct (stripSlash p) as [|a [|x [|y [|z q]]]];
    simpl; try discriminate.
  - by case_bool_decide.
  - case_bool_decide; [|discriminate]. by case_bool_decide.
  - case_bool_decide; [|discriminate]. case_bool_decide; [discriminate|].
    case_bool_decide; [|discriminate]. intros [= <-]. eauto 10.
  - case_bool_decide; [|discriminate]. case_bool_decide; [discriminate|].
    by case_bool_decide.
Qed.

(** The path [/inventory/<id>], with the id in decimal, is the item path
    of that id. *)
Lemma matchPath_decimal z :
  matchPath itemPath [lit "inventory"; decimal z]
    = Some [(lit "id", decimal z)] /\
  parseInt (paramId [(lit "id", decimal z)]) = Some z.
Proof.
  pose proof (parseInt_decimal z) as Hz.
  destruct (decimal z) as [|c r] eqn:E; [done|].
  split; [done|]. unfold paramId. simpl. exact Hz.
Qed.

Lemma handlesMethod_only m m' :
  handlesMethod (Some [m]) m' = true ->
  m' = m \/ (m = GET /\ m' = HEAD).
Proof. destruct m, m'; vm_compute; intros; try discriminate; auto. Qed.

(** What a property of the dispatch needs: it holds when no layer
    answers, and for every answer a matching layer can give. *)
Lemma dispatch_cases (P : Response * State -> Prop) stack req s :
  P (RNoRoute, s) ->
  Forall (fun L => forall ps r s',
            matchLayer L req = Some ps ->
            handler L ps req s = Done r s' -> P (r, s')) stack ->
  P (dispatch stack req s).
Proof.
  intros Hnone. induction 1 as [|L rest HL _ IH]; simpl; [done|].
  destruct (matchLayer L req) as [ps|] eqn:Hm; [|done].
  destruct (handler L ps req s) as [r s'|] eqn:Hh; [|done]. eauto.
Qed.

Ltac eval_methods :=
  repeat match goal with
  | |- context [handlesMethod ?a ?m] =>
      let b := eval vm_compute in (handlesMethod a m) in
      change (handlesMethod a m) with b
  end.

Lemma dispatch_cons L rest req s :
  dispatch (L :: rest) req s =
  match matchLayer L req with
  | Some ps =>
      match handler L ps req s with
      | Done r s' => (r, s')
      | Next => dispatch rest req s
      end
  | None => dispatch rest req s
  end.
Proof. reflexivity. Qed.

Ltac eval_closed :=
  repeat match goal with
  | |- context [handlesMethod ?a ?m] =>
      let b := eval vm_compute in (handlesMethod a m) in
      change (handlesMethod a m) with b
  | |- context [@bool_decide (@elem_of Method _ _ ?m ?l) ?d] =>
      let b := eval vm_compute in (@bool_decide (m ∈ l) d) in
      change (@bool_decide (m ∈ l) d) with b
  end.

Ltac answered :=
  unfold answer;
  match goal with
  | |- context [let '(_, _) := ?x in _] => by destruct x
  | |- _ => reflexivity
  end.

(** One layer of the stack, for a request whose method is given by
    [Hm] and whose path matches the pattern of [Hp]; the other patterns
    are ruled out by [exclusive]. *)
Ltac layer Hm Hp :=
  rewrite dispatch_cons; unfold matchLayer; cbn [matcher handler];
  try rewrite Hm; eval_closed; cbv match;
  try first
    [ rewrite Hp
    | rewrite (matchPath_exclusive _ _ _ _ Hp) by reflexivity ];
  try (unfold allow; rewrite Hm; eval_closed);
  cbv match.

Ltac walk_stack Hm Hp :=
  unfold registerPath, inventoryPath, itemPath, photoPath, searchPath in Hp;
  unfold handle, app; repeat (layer Hm Hp; try answered).

Lemma handle_register cache req s :
  method req = POST -> is_Some (matchPath registerPath (path req)) ->
  handle cache req s = register req s.
Proof. intros Hm [ps Hp]. by walk_stack Hm Hp. Qed.

Lemma handle_listItems cache req s :
  method req = GET \/ method req = HEAD ->
  is_Some (matchPath inventoryPath (path req)) ->
  handle cache req s = listItems req s.
Proof. intros [Hm|Hm] [ps Hp]; by walk_stack Hm Hp. Qed.

Lemma handle_getItem cache req s ps :
  method req = GET \/ method req = HEAD ->
  matchPath itemPath (path req) = Some ps ->
  handle cache req s = getItem ps req s.
Proof. intros [Hm|Hm] Hp; by walk_stack Hm Hp. Qed.

Lemma handle_updateItem cache req s ps :
  method req = PUT -> matchPath itemPath (path req) = Some ps ->
  handle cache req s = updateItem ps req s.
Proof. intros Hm Hp. by walk_stack Hm Hp. Qed.

Lemma handle_deleteItem cache req s ps :
  method req = DELETE -> matchPath itemPath (path req) = Some ps ->
  handle cache req s = deleteItem ps req s.
Proof. intros Hm Hp. by walk_stack Hm Hp. Qed.

Lemma handle_getPhoto cache req s ps :
  method req = GET \/ method req = HEAD ->
  matchPath photoPath (path req) = Some ps ->
  handle cache req s = getPhoto cache ps req s.
Proof. intros [Hm|Hm] Hp; by walk_stack Hm Hp. Qed.

Lemma handle_setPhoto cache req s ps :
  method req = PUT -> matchPath photoPath (path req) = Some ps ->
  handle cache req s = setPhoto ps req s.
Proof. intros Hm Hp. by walk_stack Hm Hp. Qed.

Lemma handle_search cache req s :
  method req = POST -> is_Some (matchPath searchPath (path req)) ->
  handle cache req s = search req s.
Proof. intros Hm [ps Hp]. by walk_stack Hm Hp. Qed.

(** ** Registration *)

Lemma uploadSingle_inventory req s :
  inventory (uploadSingle req s).2 = inventory s /\
  nextId (uploadSingle req s).2 = nextId s.
Proof. unfold uploadSingle. by destruct (file req). Qed.

Lemma uploadSingle_inventory_file req s :
  files (uploadSingle req s).2 !! INVENTORY_FILE = files s !! INVENTORY_FILE.
Proof.
  unfold uploadSingle. destruct (file req) as [u|]; simpl; [|done].
  apply lookup_insert_ne, uniqueName_not_inventory.
Qed.


Lemma register_blank req s :
  blankName (body req !! lit "inventory_name") ->
  register req s =
    (RJson 400 (BError (lit "inventory_name is required")),
     (uploadSingle req s).2).
Proof.
  unfold register. destruct (uploadSingle req s) as [filename s1]; simpl.
  intros [->|(n & -> & Hn)]; simpl; [done|].
  apply trim_nil in Hn. rewrite Hn.
  by case_bool_decide.
Qed.

(** C3: a register request whose [inventory_name] is missing, empty or
    made of white space only is answered 400, and the inventory store is
    left as it was: same items, same length, same counter, same
    persisted file. *)
Theorem register_blank_name_rejected cache req s :
  method req = POST ->
  is_Some (matchPath registerPath (path req)) ->
  blankName (body req !! lit "inventory_name") ->
  (handle cache req s).1 =
    RJson 400 (BError (lit "inventory_name is required")) /\
  inventory (handle cache req s).2 = inventory s /\
  length (inventory (handle cache req s).2) = length (inventory s) /\
  nextId (handle cache req s).2 = nextId s /\
  files (handle cache req s).2 !! INVENTORY_FILE = files s !! INVENTORY_FILE.
Proof.
  intros Hm Hp Hblank.
  rewrite (handle_register _ _ _ Hm Hp), (register_blank _ _ Hblank). simpl.
  destruct (uploadSingle_inventory req s) as [Hinv Hnext].
  rewrite Hinv, Hnext, uploadSingle_inventory_file. done.
Qed.

(** ** The store *)

Lemma findEntry_Some n inv i item :
  findEntry n inv = Some (i, item) ->
  inv !! i = Some item /\ Some (id item) = n /\
  forall j y, inv !! j = Some y -> (j < i)%nat -> Some (id y) <> n.
Proof. unfold findEntry. by intros ?%list_find_Some. Qed.

Lemma findEntry_None n inv :
  findEntry n inv = None <-> Forall (fun it => Some (id it) <> n) inv.
Proof. unfold findEntry. apply list_find_None. Qed.

Lemma findItem_entry n inv :
  findItem n inv = snd <$> findEntry n inv.
Proof. done. Qed.

(** Replacing the found item by one with the same id keeps it the first
    match. *)
Lemma findEntry_insert_same n inv i item item' :
  findEntry n inv = Some (i, item) -> id item' = id item ->
  findEntry n (<[i := item']> inv) = Some (i, item').
Proof.
  intros (Hi & Hn & Hmin)%findEntry_Some Hid.
  apply list_find_Some. split_and!.
  - apply list_lookup_insert_eq. by eapply lookup_lt_Some.
  - unfold hasId. by rewrite Hid.
  - intros j y Hj Hlt. rewrite list_lookup_insert_ne in Hj by lia.
    by eapply Hmin.
Qed.

Lemma withName_fields v item :
  inventory_name (withName v item) = default (inventory_name item) v /\
  description (withName v item) = description item /\
  id (withName v item) = id item /\
  photoFilename (withName v item) = photoFilename item.
Proof. by destruct v. Qed.

Lemma withDescription_fields v item :
  inventory_name (withDescription v item) = inventory_name item /\
  description (withDescription v item) = default (description item) v /\
  id (withDescription v item) = id item /\
  photoFilename (withDescription v item) = photoFilename item.
Proof. by destruct v. Qed.

(** ** Update *)

(** C4: an update of an existing item answers 200 and replaces a field
    exactly when the body supplies it: an omitted field keeps its value,
    a supplied value (the empty string included) becomes the field; the
    id, the photo reference, every other item, the length of the store
    and the counter are unchanged, and the item stays the one found
    under its id. *)
Theorem update_replaces_supplied_fields cache req s ps i item :
  method req = PUT ->
  matchPath itemPath (path req) = Some ps ->
  findEntry (parseInt (paramId ps)) (inventory s) = Some (i, item) ->
  exists item',
    (handle cache req s).1 = RJson 200 (BItem (itemToDTO req item')) /\
    inventory_name item' =
      default (inventory_name item) (body req !! lit "inventory_name") /\
    description item' =
      default (description item) (body req !! lit "description") /\
    id item' = id item /\
    photoFilename item' = photoFilename item /\
    inventory (handle cache req s).2 = <[i := item']> (inventory s) /\
    (forall j, j <> i ->
       inventory (handle cache req s).2 !! j = inventory s !! j) /\
    length (inventory (handle cache req s).2) = length (inventory s) /\
    nextId (handle cache req s).2 = nextId s /\
    findItem (parseInt (paramId ps)) (inventory (handle cache req s).2)
      = Some item'.
Proof.
  intros Hm Hp Hfind. rewrite (handle_updateItem _ _ _ _ Hm Hp).
  unfold updateItem. rewrite Hfind. simpl.
  set (name := body req !! lit "inventory_name").
  set (desc := body req !! lit "description").
  destruct (withName_fields name item) as (N1 & N2 & N3 & N4).
  destruct (withDescription_fields desc (withName name item))
    as (D1 & D2 & D3 & D4).
  exists (withDescription desc (withName name item)).
  split_and!; try congruence.
  - intros j Hj. by apply list_lookup_insert_ne.
  - apply length_insert.
  - rewrite findItem_entry.
    erewrite findEntry_insert_same; [done|done|congruence].
Qed.

(** ** Search *)


Lemma trimStart_suffix s : exists w, s = w ++ trimStart s.
Proof.
  induction s as [|c s [w IH]]; [by exists []|]. simpl.
  destruct (isWhiteSpace c).
  - exists (c :: w). simpl. by f_equal.
  - by exists [].
Qed.

Lemma trimEnd_prefix s : exists w, s = trimEnd s ++ w.
Proof.
  unfold trimEnd. destruct (trimStart_suffix (reverse s)) as [w Hw].
  exists (reverse w). rewrite <- reverse_app, <- Hw.
  by rewrite reverse_involutive.
Qed.

(** A field that is a decimal integer is never refused. *)
Lemma numeric_id_parses s : isNumericText s = true -> is_Some (parseInt s).
Proof.
  unfold isNumericText, parseInt, trim.
  destruct (trimEnd_prefix (trimStart s)) as [w Hw].
  remember (trimEnd (trimStart s)) as t eqn:Et. rewrite Hw. clear Hw Et.
  assert (Hd : forall r, negb (bool_decide (r = [])) && forallb isDigit r = true ->
            exists c r', r = c :: r' /\ isDigit c = true).
  { intros [|c r]; simpl; [done|]. intros [? _]%andb_true_iff. eauto. }
  intros (c & r' & Hr & Hc)%Hd. revert Hr.
  destruct t as [|a t]; simpl; [done|].
  destruct (a =? 45)%N; [|destruct (a =? 43)%N]; simpl.
  - intros ->. simpl. rewrite Hc. eauto.
  - intros ->. simpl. rewrite Hc. eauto.
  - intros [= -> ->]. rewrite Hc. eauto.
Qed.


(** ** Delete *)



Lemma deleteItem_found ps req s i removed :
  findEntry (parseInt (paramId ps)) (inventory s) = Some (i, removed) ->
  (deleteItem ps req s).1 = RJson 200 (BMessage (lit "Item deleted")) /\
  inventory (deleteItem ps req s).2 = delete i (inventory s) /\
  nextId (deleteItem ps req s).2 = nextId s /\
  (forall f, photoOf removed = Some f ->
     files (deleteItem ps req s).2 !! f = None) /\
  (forall f, photoOf removed <> Some f -> f <> INVENTORY_FILE ->
     files (deleteItem ps req s).2 !! f = files s !! f) /\
  (photoOf removed <> Some INVENTORY_FILE ->
     files (deleteItem ps req s).2 !! INVENTORY_FILE =
       Some (Document (delete i (inventory s)))).
Proof.
  intros Hfind. unfold deleteItem. rewrite Hfind. simpl.
  destruct (photoOf removed) as [f|]; [case_bool_decide as Hex|]; simpl;
    split_and!; try done.
  - intros ? [= <-]. apply lookup_delete_eq.
  - intros g Hg Hinv. rewrite lookup_delete_ne by congruence.
    by rewrite lookup_insert_ne.
  - intros Hf. rewrite lookup_delete_ne by congruence.
    apply lookup_insert_eq.
  - intros ? [= <-]. simpl in Hex.
    destruct (_ !! f) eqn:E; [|done]. destruct Hex. eauto.
  - intros g _ Hinv. by rewrite lookup_insert_ne.
  - intros _. apply lookup_insert_eq.
  - intros g _ Hinv. by rewrite lookup_insert_ne.
  - intros _. apply lookup_insert_eq.
Qed.


(** ** Every request *)

Lemma answer_Done h ps req s r s' :
  answer h ps req s = Done r s' -> h ps req s = (r, s').
Proof. unfold answer. destruct (h ps req s). by intros [= -> ->]. Qed.

Lemma matchLayer_route ms pat h req ps :
  matchLayer {| matcher := Route ms pat; handler := h |} req = Some ps ->
  handlesMethod ms (method req) = true /\ matchPath pat (path req) = Some ps.
Proof.
  unfold matchLayer. simpl. by destruct (handlesMethod ms (method req)).
Qed.

Lemma handlesMethod_get m :
  handlesMethod (Some [GET]) m = true -> m = GET \/ m = HEAD.
Proof. intros [?|[_ ?]]%handlesMethod_only; auto. Qed.

Lemma handlesMethod_exact m m' :
  m <> GET -> handlesMethod (Some [m]) m' = true -> m' = m.
Proof. intros Hg [Hm|[Hm _]]%handlesMethod_only; done. Qed.

Lemma isMutation_status req st b :
  st <> 201%Z -> st <> 200%Z -> isMutation req (RJson st b) = false.
Proof.
  intros Hc Ho. unfold isMutation.
  destruct st as [|p|p]; try done.
  repeat (destruct p as [p|p|]; try done).
Qed.

Lemma isMutation_read req b :
  method req <> PUT -> method req <> DELETE ->
  isMutation req (RJson 200 b) = false.
Proof.
  intros Hput Hdel. unfold isMutation. apply bool_decide_eq_false.
  rewrite !elem_of_cons, elem_of_nil. tauto.
Qed.

Ltac read_only :=
  left; eexists; split; [reflexivity|];
  first [ reflexivity
        | apply isMutation_status; discriminate
        | apply isMutation_read; congruence ].

(** What a request can do: leave the state alone, or run one of the four
    handlers that write. *)
Lemma handle_cases cache req s :
  (exists r, handle cache req s = (r, s) /\ isMutation req r = false) \/
  (method req = POST /\ handle cache req s = register req s) \/
  (method req = PUT /\ exists ps, handle cache req s = updateItem ps req s) \/
  (method req = PUT /\ exists ps, handle cache req s = setPhoto ps req s) \/
  (method req = DELETE /\ exists ps,
     matchPath itemPath (path req) = Some ps /\
     handle cache req s = deleteItem ps req s).
Proof.
  unfold handle.
  apply (dispatch_cases (fun x =>
    (exists r, x = (r, s) /\ isMutation req r = false) \/
    (method req = POST /\ x = register req s) \/
    (method req = PUT /\ exists ps, x = updateItem ps req s) \/
    (method req = PUT /\ exists ps, x = setPhoto ps req s) \/
    (method req = DELETE /\ exists ps,
       matchPath itemPath (path req) = Some ps /\ x = deleteItem ps req s)));
    [read_only|].
  unfold app. repeat apply Forall_cons_2; [..|apply Forall_nil_2].
  all: intros ps r s'; cbn [handler].
  all: try (intros _; unfold allow; simpl; case_bool_decide;
            [discriminate|]; intros [= <- <-]; read_only).
  all: try (intros _ [= <- <-]; read_only).
  - intros [Hm _]%matchLayer_route Hh%answer_Done.
    apply handlesMethod_exact in Hm; [|done]. right; left. by rewrite <- Hh.
  - intros [[Hm|Hm]%handlesMethod_get _]%matchLayer_route
      [= <- <-]%answer_Done; read_only.
  - intros [[Hm|Hm]%handlesMethod_get _]%matchLayer_route Hh%answer_Done;
      unfold getItem in Hh; destruct (findItem _ _); injection Hh as <- <-;
      read_only.
  - intros [Hm _]%matchLayer_route Hh%answer_Done.
    apply handlesMethod_exact in Hm; [|done].
    right; right; left. split; [done|]. by exists ps.
  - intros [Hm Hp]%matchLayer_route Hh%answer_Done.
    apply handlesMethod_exact in Hm; [|done].
    do 4 right. split; [done|]. by exists ps.
  - intros [[Hm|Hm]%handlesMethod_get _]%matchLayer_route Hh%answer_Done;
      unfold getPhoto, sendFile in Hh;
      repeat (match type of Hh with
              | context [match ?x with _ => _ end] => destruct x
              end);
      injection Hh as <- <-; read_only.
  - intros [Hm _]%matchLayer_route Hh%answer_Done.
    apply handlesMethod_exact in Hm; [|done].
    do 3 right; left. split; [done|]. by exists ps.
  - intros [Hm _]%matchLayer_route Hh%answer_Done.
    apply handlesMethod_exact in Hm; [|done].
    unfold search in Hh.
    destruct (parseInt _); [destruct (findItem _ _)|];
      injection Hh as <- <-; read_only.
Qed.

Lemma register_effect req s :
  method req = POST -> Effect req s (register req s).
Proof.
  intros Hm. unfold register.
  destruct (uploadSingle req s) as [filename s1] eqn:Hup.
  assert (Hs1 : s1 = (uploadSingle req s).2) by by rewrite Hup.
  assert (Hf : filename = (uploadSingle req s).1) by by rewrite Hup.
  destruct (truthy (body req !! lit "inventory_name")); simpl;
    [|by apply Quiet; [right|]].
  destruct (body req !! lit "inventory_name") as [[| | |n| |]|];
    try (by apply Quiet; [right|]).
  case_bool_decide; [by apply Quiet; [right|]|].
  rewrite Hs1. apply Created; [done| |done].
  simpl. apply uploadSingle_inventory.
Qed.

Lemma updateItem_effect ps req s :
  method req = PUT -> Effect req s (updateItem ps req s).
Proof.
  intros Hm. unfold updateItem.
  destruct (findEntry _ _) as [[i item]|] eqn:Hfind;
    [|by apply Quiet; [left|]].
  apply findEntry_Some in Hfind as (Hi & _).
  destruct (withName_fields (body req !! lit "inventory_name") item)
    as (_ & _ & N3 & N4).
  destruct (withDescription_fields (body req !! lit "description")
              (withName (body req !! lit "inventory_name") item))
    as (_ & _ & D3 & D4).
  eapply Replaced; [done|by left|done|congruence|left; congruence].
Qed.

Lemma setPhoto_effect ps req s :
  method req = PUT -> Effect req s (setPhoto ps req s).
Proof.
  intros Hm. unfold setPhoto.
  destruct (uploadSingle req s) as [filename s1] eqn:Hup.
  assert (Hs1 : s1 = (uploadSingle req s).2) by by rewrite Hup.
  assert (Hinv : inventory s1 = inventory s).
  { rewrite Hs1. apply uploadSingle_inventory. }
  rewrite Hinv.
  destruct (findEntry _ _) as [[i item]|] eqn:Hfind;
    [|by apply Quiet; [right|]].
  apply findEntry_Some in Hfind as (Hi & _).
  destruct filename as [f|]; [|by apply Quiet; [right|]].
  eapply Replaced; [done|by right|done|done|right].
  unfold uploadSingle in Hup. destruct (file req) as [u|]; [|done].
  injection Hup as <- _. eauto.
Qed.

(** Every request has one of the four effects. *)
Lemma handle_effect cache req s : Effect req s (handle cache req s).
Proof.
  destruct (handle_cases cache req s)
    as [(r & -> & Hr)|[[Hm ->]|[(Hm & ps & ->)|[(Hm & ps & ->)|
        (Hm & ps & Hp & ->)]]]].
  - by apply Quiet; [left|].
  - by apply register_effect.
  - by apply updateItem_effect.
  - by apply setPhoto_effect.
  - destruct (findEntry (parseInt (paramId ps)) (inventory s))
      as [[i removed]|] eqn:Hfind.
    + by eapply Deleted.
    + unfold deleteItem. rewrite Hfind. by apply Quiet; [left|].
Qed.

(** ** The id counter *)

Lemma foldl_max_bound (inv : list Item) a :
  (a <= foldl (fun max item => Z.max max (id item)) a inv)%Z /\
  Forall (fun it =>
            (id it <= foldl (fun max item => Z.max max (id item)) a inv)%Z) inv.
Proof.
  revert a. induction inv as [|x inv IH]; intros a; simpl; [by split|].
  destruct (IH (Z.max a (id x))) as [Hlo Hall]. split; [lia|].
  constructor; [lia|done].
Qed.

Lemma foldl_max_ids (inv : list Item) a :
  foldl (fun max item => Z.max max (id item)) a inv
  = foldl Z.max a (id <$> inv).
Proof.
  revert a. induction inv as [|x inv IH]; intros a; simpl; [done|apply IH].
Qed.

Lemma foldl_max_lt (inv : list Item) a b :
  (a < b)%Z -> Forall (fun it => (id it < b)%Z) inv ->
  (foldl (fun max item => Z.max max (id item)) a inv < b)%Z.
Proof.
  intros Ha Hall. revert a Ha.
  induction Hall as [|x inv Hx _ IH]; intros a Ha; simpl; [done|].
  apply IH. lia.
Qed.

Lemma maxId_nonneg inv : (0 <= maxId inv)%Z.
Proof. apply (foldl_max_bound inv 0). Qed.

Lemma maxId_bound inv : Forall (fun it => (id it <= maxId inv)%Z) inv.
Proof. apply (foldl_max_bound inv 0). Qed.

Lemma maxId_lt inv b :
  (0 < b)%Z -> Forall (fun it => (id it < b)%Z) inv -> (maxId inv < b)%Z.
Proof. apply foldl_max_lt. Qed.

Lemma maxId_snoc inv item : maxId (inv ++ [item]) = Z.max (maxId inv) (id item).
Proof. unfold maxId. by rewrite foldl_app. Qed.

(** The maximum is 0 or the id of an item. *)
Lemma maxId_attained inv :
  maxId inv = 0%Z \/ exists i it, inv !! i = Some it /\ id it = maxId inv.
Proof.
  induction inv as [|x inv IH] using rev_ind; [by left|].
  rewrite maxId_snoc.
  destruct (Z.max_spec (maxId inv) (id x)) as [[_ ->]|[_ ->]].
  - right. exists (length inv), x. split; [|done].
    by rewrite lookup_app_r, Nat.sub_diag.
  - destruct IH as [IH|(i & it & Hi & Hit)]; [by left|].
    right. exists i, it. split; [|done]. by apply lookup_app_l_Some.
Qed.

Lemma maxId_unique inv m :
  (0 <= m)%Z -> Forall (fun it => (id it <= m)%Z) inv ->
  m = 0%Z \/ (exists i it, inv !! i = Some it /\ id it = m) ->
  maxId inv = m.
Proof.
  intros Hm Hall Hatt.
  pose proof (maxId_nonneg inv) as Hn. pose proof (maxId_bound inv) as Hb.
  assert (maxId inv <= m)%Z.
  { destruct (maxId_attained inv) as [->|(i & it & Hi & <-)]; [done|].
    by eapply (Forall_lookup_1 _ _ _ _ Hall). }
  assert (m <= maxId inv)%Z; [|lia].
  destruct Hatt as [->|(i & it & Hi & <-)]; [done|].
  by eapply (Forall_lookup_1 _ _ _ _ Hb).
Qed.

(** Taking an item out leaves the maximum where it was, unless the item
    alone held a positive maximum. *)
Lemma maxId_delete inv i removed :
  inv !! i = Some removed ->
  ((0 < id removed)%Z ->
   ~ Forall (fun it => (id it < id removed)%Z) (delete i inv)) ->
  maxId (delete i inv) = maxId inv.
Proof.
  intros Hi Hother. apply maxId_unique.
  - apply maxId_nonneg.
  - eapply (Forall_impl _ _ _ (Forall_delete _ _ _ (maxId_bound inv))).
    done.
  - destruct (maxId_attained inv) as [?|(j & it & Hj & Hit)]; [by left|].
    destruct (decide (maxId inv = 0%Z)); [by left|]. right.
    pose proof (maxId_nonneg inv). pose proof (maxId_bound inv) as Hb.
    destruct (decide (j = i)) as [->|Hne].
    + assert (it = removed) as -> by congruence.
      apply not_Forall_Exists in Hother; [|apply _|lia].
      apply Exists_exists in Hother as (y & [k Hk]%list_elem_of_lookup & Hy).
      exists k, y. split; [done|]. simpl in Hy.
      assert (id y <= maxId inv)%Z; [|lia].
      assert (y ∈ inv) as [k' Hk']%list_elem_of_lookup.
      { eapply list_elem_of_delete_inv. by eapply list_elem_of_lookup_2. }
      by eapply (Forall_lookup_1 _ _ _ _ Hb).
    + destruct (decide (j < i)%nat).
      * exists j, it. by rewrite list_lookup_delete_lt.
      * exists (pred j), it. rewrite list_lookup_delete_ge by lia.
        replace (S (pred j)) with j by lia. done.
Qed.

Lemma initialNextId_max inv : initialNextId inv = increment (maxId inv).
Proof.
  unfold initialNextId. case_bool_decide as Hlen; [done|].
  destruct inv; [done|simpl in Hlen; lia].
Qed.

Lemma initialNextId_ids inv inv' :
  id <$> inv = id <$> inv' -> initialNextId inv = initialNextId inv'.
Proof.
  intros Hids. rewrite !initialNextId_max. unfold maxId.
  by rewrite !foldl_max_ids, Hids.
Qed.

Lemma initialNextId_pos inv : (0 < initialNextId inv)%Z.
Proof. rewrite initialNextId_max. apply increment_pos, maxId_nonneg. Qed.

Lemma initialNextId_double inv :
  toDouble (initialNextId inv) = initialNextId inv.
Proof. rewrite initialNextId_max. apply increment_double. Qed.

Lemma startup_sound disk : counterSound (startup disk).
Proof.
  unfold counterSound, startup. simpl.
  split_and!; [apply initialNextId_pos|apply initialNextId_double|done].
Qed.

Lemma startup_tight disk : tight (startup disk).
Proof. done. Qed.

Lemma response_201_mutation req d :
  isMutation req (RJson 201 d) = true.
Proof. done. Qed.

(** What a request does to the counter: it stays, or a register answered
    201 has applied [++] to it; the 201 response carries the value the
    counter had, and the item is in the store. *)
Lemma effect_counter req s x :
  Effect req s x ->
  (nextId x.2 = nextId s \/ nextId x.2 = increment (nextId s)) /\
  (forall d, x.1 = RJson 201 (BItem d) ->
     dto_id d = nextId s /\ nextId x.2 = increment (nextId s) /\
     exists it, it ∈ inventory x.2 /\ id it = dto_id d).
Proof.
  destruct (uploadSingle_inventory req s) as [Uinv Unext].
  intros [r s1 Hs1 Hr|item Hm Hid Hph|i item item' s1 Hm Hs1 Hi Hid Hph|
          ps i removed Hm Hp Hfind]; simpl.
  - assert (nextId s1 = nextId s) as -> by by destruct Hs1 as [->| ->].
    split; [by left|]. intros d ->. by rewrite response_201_mutation in Hr.
  - rewrite Uinv, Unext. split; [by right|].
    intros d [= <-]. simpl. split_and!; [done|done|]. exists item.
    split; [|done]. apply elem_of_app. right. by apply list_elem_of_singleton.
  - assert (nextId s1 = nextId s) as -> by by destruct Hs1 as [->| ->].
    split; [by left|done].
  - destruct (deleteItem_found ps req s i removed Hfind)
      as (Hr & Hinv & Hnext & _).
    rewrite Hnext, Hr. split; [by left|done].
Qed.

Lemma effect_ids req s x :
  Effect req s x ->
  (id <$> inventory x.2 = id <$> inventory s) \/
  (exists d, x.1 = RJson 201 (BItem d) /\
             id <$> inventory x.2 = (id <$> inventory s) ++ [nextId s]) \/
  (exists ps i removed,
     method req = DELETE /\ matchPath itemPath (path req) = Some ps /\
     findEntry (parseInt (paramId ps)) (inventory s) = Some (i, removed) /\
     inventory x.2 = delete i (inventory s)).
Proof.
  destruct (uploadSingle_inventory req s) as [Uinv Unext].
  intros [r s1 Hs1 Hr|item Hm Hid Hph|i item item' s1 Hm Hs1 Hi Hid Hph|
          ps i removed Hm Hp Hfind]; simpl.
  - left. by destruct Hs1 as [->| ->]; rewrite ?Uinv.
  - right. left. eexists. split; [done|].
    rewrite Uinv, fmap_app. simpl. by rewrite Hid.
  - left. rewrite list_fmap_insert, Hid. apply list_insert_id.
    by rewrite list_lookup_fmap, Hi.
  - right. right. exists ps, i, removed.
    by destruct (deleteItem_found ps req s i removed Hfind) as (_ & -> & _).
Qed.

(** The counter stays a positive number, never decreases, and is never
    behind the startup formula. *)
Lemma effect_sound req s x :
  Effect req s x -> counterSound s ->
  counterSound x.2 /\ (nextId s <= nextId x.2)%Z.
Proof.
  intros Heff (Hpos & Hdbl & Hinit).
  destruct (effect_counter _ _ _ Heff) as [Hnext Hnew].
  pose proof (increment_ge _ Hdbl) as Hge.
  assert (Hmono : (nextId s <= nextId x.2)%Z)
    by (destruct Hnext as [->| ->]; lia).
  split; [|done]. unfold counterSound. split_and!.
  - lia.
  - destruct Hnext as [->| ->]; [done|apply increment_double].
  - destruct (effect_ids _ _ _ Heff)
      as [Hids|[(d & Hd & Hids)|(ps & i & removed & _ & _ & Hfind & Hinv)]].
    + rewrite (initialNextId_ids _ _ Hids). lia.
    + destruct (Hnew d Hd) as (_ & -> & _).
      rewrite initialNextId_max. rewrite initialNextId_max in Hinit.
      assert (maxId (inventory x.2) = Z.max (maxId (inventory s)) (nextId s))
        as ->.
      { unfold maxId. rewrite !foldl_max_ids, Hids, foldl_app. done. }
      destruct (Z.max_spec (maxId (inventory s)) (nextId s)) as [[_ ->]|[_ ->]];
        [done|].
      lia.
    + rewrite Hinv, initialNextId_max. rewrite initialNextId_max in Hinit.
      assert (maxId (delete i (inventory s)) <= maxId (inventory s))%Z.
      { destruct (maxId_attained (delete i (inventory s)))
          as [->|(k & y & Hk & <-)]; [apply maxId_nonneg|].
        assert (y ∈ inventory s) as [k' Hk']%list_elem_of_lookup.
        { eapply list_elem_of_delete_inv. by eapply list_elem_of_lookup_2. }
        by eapply (Forall_lookup_1 _ _ _ _ (maxId_bound (inventory s))). }
      pose proof (increment_mono _ _ H). lia.
Qed.

Lemma run_snoc cache reqs req s :
  run cache (reqs ++ [req]) s = (handle cache req (run cache reqs s)).2.
Proof. unfold run. by rewrite foldl_app. Qed.

Lemma run_app cache reqs1 reqs2 s :
  run cache (reqs1 ++ reqs2) s = run cache reqs2 (run cache reqs1 s).
Proof. unfold run. by rewrite foldl_app. Qed.

Lemma run_counter cache reqs s :
  counterSound s ->
  counterSound (run cache reqs s) /\ (nextId s <= nextId (run cache reqs s))%Z.
Proof.
  intros Hs. induction reqs as [|req reqs [IH1 IH2]] using rev_ind; [done|].
  rewrite run_snoc.
  destruct (effect_sound req _ _ (handle_effect cache req (run cache reqs s)) IH1)
    as [H1 H2].
  split; [done|lia].
Qed.

Lemma run_sound cache disk reqs : counterSound (run cache reqs (startup disk)).
Proof. apply run_counter, startup_sound. Qed.

(** *** Below [2^53]

    As long as the counter is below [2^53] every [++] has added one, and
    the ids in the store are below the counter. *)

Lemma startup_belowCounter disk :
  (nextId (startup disk) < 2 ^ 53)%Z -> belowCounter (startup disk).
Proof.
  unfold belowCounter, startup. simpl. rewrite initialNextId_max. intros Hlt.
  destruct (increment_below _ (maxId_nonneg _) Hlt) as [-> _].
  eapply Forall_impl; [apply maxId_bound|]. simpl. intros; lia.
Qed.

Lemma effect_belowCounter req s x :
  Effect req s x -> counterSound s -> (nextId x.2 < 2 ^ 53)%Z ->
  belowCounter s -> belowCounter x.2.
Proof.
  unfold belowCounter.
  destruct (uploadSingle_inventory req s) as [Uinv Unext].
  intros [r s1 Hs1 Hr|item Hm Hid Hph|i item item' s1 Hm Hs1 Hi Hid Hph|
          ps i removed Hm Hp Hfind] (Hpos & _) Hlt Hb; simpl in *.
  - by destruct Hs1 as [->| ->]; rewrite ?Uinv, ?Unext.
  - rewrite Unext in *. rewrite Uinv.
    destruct (increment_below (nextId s) ltac:(lia) Hlt) as [-> _].
    apply Forall_app. split.
    + eapply Forall_impl; [done|]. simpl. intros; lia.
    + constructor; [lia|done].
  - assert (nextId s1 = nextId s) as -> by by destruct Hs1 as [->| ->].
    apply Forall_insert; [done|]. rewrite Hid.
    by eapply (Forall_lookup_1 _ _ _ _ Hb).
  - destruct (deleteItem_found ps req s i removed Hfind)
      as (Hr & Hinv & Hnext & _).
    rewrite Hinv, Hnext. by apply Forall_delete.
Qed.

Lemma run_belowCounter cache disk reqs :
  (nextId (run cache reqs (startup disk)) < 2 ^ 53)%Z ->
  belowCounter (run cache reqs (startup disk)).
Proof.
  induction reqs as [|req reqs IH] using rev_ind;
    [apply startup_belowCounter|].
  rewrite run_snoc. intros Hlt.
  pose proof (run_sound cache disk reqs) as Hs.
  pose proof (handle_effect cache req (run cache reqs (startup disk))) as Heff.
  destruct (effect_sound _ _ _ Heff Hs) as [_ Hmono].
  eapply effect_belowCounter; [done|done|done|]. apply IH. lia.
Qed.

(** Earlier moments of a run: the counter was not ahead of where it is
    now. *)
Lemma run_prefix_counter cache disk reqs1 reqs2 :
  (nextId (run cache reqs1 (startup disk))
   <= nextId (run cache (reqs1 ++ reqs2) (startup disk)))%Z.
Proof. rewrite run_app. apply run_counter, run_sound. Qed.

(** Distinct ids stay distinct. *)
Lemma effect_distinct req s x :
  Effect req s x -> belowCounter s ->
  NoDup (id <$> inventory s) -> NoDup (id <$> inventory x.2).
Proof.
  unfold belowCounter. intros Heff Hb Hnd.
  destruct (effect_ids _ _ _ Heff)
    as [->|[(d & Hd & ->)|(ps & i & removed & _ & _ & Hfind & ->)]]; [done| |].
  - apply NoDup_app. split_and!; [done| |apply NoDup_singleton].
    intros k (it & -> & Hin)%list_elem_of_fmap [= Heq]%list_elem_of_singleton.
    rewrite Forall_forall in Hb. specialize (Hb it Hin). lia.
  - rewrite list_fmap_delete. exact (sublist_NoDup _ _ Hnd (sublist_delete _ _)).
Qed.

Lemma run_distinct cache disk reqs :
  (nextId (run cache reqs (startup disk)) < 2 ^ 53)%Z ->
  NoDup (id <$> inventory (startup disk)) ->
  NoDup (id <$> inventory (run cache reqs (startup disk))).
Proof.
  intros Hlt Hnd. induction reqs as [|req reqs IH] using rev_ind; [done|].
  rewrite run_snoc. rewrite run_snoc in Hlt.
  pose proof (run_sound cache disk reqs) as Hs.
  pose proof (handle_effect cache req (run cache reqs (startup disk))) as Heff.
  destruct (effect_sound _ _ _ Heff Hs) as [_ Hmono].
  eapply effect_distinct; [done| |apply IH; lia].
  apply run_belowCounter. lia.
Qed.

(** C2, as the code has it: within one run, and as long as the counter
    is below [2^53], the id a create assigns differs from the id of every
    item that was in the store at any earlier moment, whether that item
    is still there or has been deleted since, and from the id of every
    earlier create. *)
Theorem ids_never_reused cache disk reqs1 reqs2 req d :
  (nextId (run cache (reqs1 ++ reqs2) (startup disk)) < 2 ^ 53)%Z ->
  (handle cache req (run cache (reqs1 ++ reqs2) (startup disk))).1
    = RJson 201 (BItem d) ->
  (forall it, it ∈ inventory (run cache reqs1 (startup disk)) ->
     id it <> dto_id d) /\
  (forall reqs0 req1 d1,
     reqs1 = reqs0 ++ [req1] ->
     (handle cache req1 (run cache reqs0 (startup disk))).1
       = RJson 201 (BItem d1) ->
     dto_id d1 <> dto_id d).
Proof.
  intros Hsafe Hd.
  pose proof (run_prefix_counter cache disk reqs1 reqs2) as Hmono.
  set (sA := run cache reqs1 (startup disk)) in *.
  set (sB := run cache (reqs1 ++ reqs2) (startup disk)) in *.
  destruct (effect_counter req _ _ (handle_effect cache req sB)) as [_ Hnew].
  destruct (Hnew d Hd) as [Hid _].
  assert (Hbelow : belowCounter sA) by (apply run_belowCounter; fold sA; lia).
  assert (Hold : forall it, it ∈ inventory sA -> id it <> dto_id d).
  { intros it Hin. unfold belowCounter in Hbelow.
    rewrite Forall_forall in Hbelow. specialize (Hbelow it Hin). lia. }
  split; [done|].
  intros reqs0 req1 d1 Hreqs Hd1.
  destruct (effect_counter req1 _ _
              (handle_effect cache req1 (run cache reqs0 (startup disk))))
    as [_ Hnew1].
  destruct (Hnew1 d1 Hd1) as (_ & _ & it & Hin & <-).
  apply Hold. unfold sA. by rewrite Hreqs, run_snoc.
Qed.

(** *** The startup formula *)

Lemma removesHighest_false req s ps i removed :
  method req = DELETE ->
  matchPath itemPath (path req) = Some ps ->
  findEntry (parseInt (paramId ps)) (inventory s) = Some (i, removed) ->
  removesHighest req s = false ->
  (0 < id removed)%Z ->
  ~ Forall (fun it => (id it < id removed)%Z) (delete i (inventory s)).
Proof.
  unfold removesHighest. intros Hm -> -> Hr Hpos Hall.
  rewrite bool_decide_eq_true_2 in Hr by done. simpl in Hr.
  apply andb_false_iff in Hr as [Hr|Hr]; [apply Z.ltb_ge in Hr; lia|].
  apply not_true_iff_false in Hr. apply Hr.
  apply forallb_forall. intros y Hy%list_elem_of_In.
  rewrite Forall_forall in Hall. apply Z.ltb_lt. by apply Hall.
Qed.

(** Once the counter is what the startup formula gives, it stays so
    until a DELETE takes the highest id out of the store. *)
Lemma effect_tight req s x :
  Effect req s x -> removesHighest req s = false ->
  toDouble (nextId s) = nextId s -> tight s -> tight x.2.
Proof.
  unfold tight. rewrite !initialNextId_max.
  destruct (uploadSingle_inventory req s) as [Uinv Unext].
  intros [r s1 Hs1 Hr|item Hm Hid Hph|i item item' s1 Hm Hs1 Hi Hid Hph|
          ps i removed Hm Hp Hfind] Hkept Hdbl Ht; simpl.
  - by destruct Hs1 as [->| ->]; rewrite ?Uinv, ?Unext.
  - rewrite Uinv, Unext, maxId_snoc, Hid.
    destruct (Z.max_spec (maxId (inventory s)) (nextId s)) as [[_ ->]|[Hle ->]];
      [done|].
    pose proof (increment_ge _ Hdbl).
    pose proof (increment_mono _ _ Hle). lia.
  - assert (nextId s1 = nextId s) as -> by by destruct Hs1 as [->| ->].
    rewrite Ht, <- !initialNextId_max. apply initialNextId_ids.
    rewrite list_fmap_insert, Hid. symmetry. apply list_insert_id.
    by rewrite list_lookup_fmap, Hi.
  - destruct (deleteItem_found ps req s i removed Hfind)
      as (_ & -> & -> & _).
    rewrite Ht. f_equal. symmetry. apply (maxId_delete _ _ removed).
    + by apply findEntry_Some in Hfind as (? & _).
    + by eapply removesHighest_false.
Qed.

Lemma run_cons cache req reqs s :
  run cache (req :: reqs) s = run cache reqs (handle cache req s).2.
Proof. done. Qed.

Lemma run_tight cache reqs s :
  counterSound s -> tight s -> highestKept cache reqs s = true ->
  tight (run cache reqs s).
Proof.
  revert s. induction reqs as [|req reqs IH]; intros s Hs Ht Hk; [done|].
  simpl in Hk. apply andb_true_iff in Hk as [Hreq Hk].
  apply negb_true_iff in Hreq.
  rewrite run_cons.
  pose proof (handle_effect cache req s) as Heff.
  apply IH; [by apply (effect_sound _ _ _ Heff)| |done].
  eapply effect_tight; [done|done|apply Hs|done].
Qed.

(** A successful register brings the counter back to the startup
    formula. *)
Lemma effect_created_tight req s x d :
  Effect req s x -> x.1 = RJson 201 (BItem d) ->
  (0 < nextId s)%Z -> belowCounter s -> tight x.2.
Proof.
  unfold tight, belowCounter. rewrite !initialNextId_max.
  destruct (uploadSingle_inventory req s) as [Uinv Unext].
  intros [r s1 Hs1 Hr|item Hm Hid Hph|i item item' s1 Hm Hs1 Hi Hid Hph|
          ps i removed Hm Hp Hfind] Hd Hpos Hb; simpl in *.
  - subst r. by rewrite response_201_mutation in Hr.
  - rewrite Uinv, Unext, maxId_snoc, Hid.
    pose proof (maxId_lt _ _ Hpos Hb). f_equal. lia.
  - done.
  - by destruct (deleteItem_found ps req s i removed Hfind) as (Hr & _);
      rewrite Hr in Hd.
Qed.

(** The item appended under a fresh id is the one found under it. *)
Lemma findEntry_snoc inv item :
  Forall (fun it => (id it < id item)%Z) inv ->
  findEntry (Some (id item)) (inv ++ [item]) = Some (length inv, item).
Proof.
  intros Hlt. apply list_find_Some. split_and!.
  - by rewrite lookup_app_r, Nat.sub_diag.
  - done.
  - intros j y Hj Hlen. rewrite lookup_app_l in Hj by done.
    pose proof (Forall_lookup_1 _ _ _ _ Hlt Hj) as Hy. simpl in Hy.
    unfold hasId. intros [= Heq]. lia.
Qed.

Lemma register_success req s n :
  body req !! lit "inventory_name" = Some (VStr n) -> trim n <> [] ->
  exists item,
    register req s =
      (RJson 201 (BItem (itemToDTO req item)),
       saveInventory (append item (uploadSingle req s).2)) /\
    id item = nextId s /\
    inventory_name item = VStr (trim n) /\
    photoFilename item = (uploadSingle req s).1.
Proof.
  intros Hname Hn. unfold register.
  destruct (uploadSingle_inventory req s) as [_ Unext].
  destruct (uploadSingle req s) as [filename s1]. simpl in *.
  rewrite Hname. simpl.
  assert (n <> []) by (by intros ->).
  rewrite bool_decide_eq_false_2 by done. simpl.
  rewrite bool_decide_eq_false_2 by done.
  eexists. split; [reflexivity|]. by rewrite Unext.
Qed.

(** C1, as the code has it: a successful register assigns the value of
    the id counter, applies [++] to the counter, appends the new item
    and shows it as the last entry of the list.  As long as the counter
    is below [2^53], that value is greater than every id in the store,
    the counter moves on by one, and the new item is the one get-by-id
    returns under its id; the id is the maximum existing id plus one (1
    for a store without positive ids) provided that, since startup or
    since the last successful register, no DELETE has taken the highest
    id out of the store. *)
Theorem register_assigns_counter cache disk reqs req n :
  let s := run cache reqs (startup disk) in
  method req = POST ->
  is_Some (matchPath registerPath (path req)) ->
  body req !! lit "inventory_name" = Some (VStr n) ->
  trim n <> [] ->
  exists item,
    let s' := (handle cache req s).2 in
    (handle cache req s).1 = RJson 201 (BItem (itemToDTO req item)) /\
    id item = nextId s /\
    inventory_name item = VStr (trim n) /\
    inventory s' = inventory s ++ [item] /\
    nextId s' = increment (nextId s) /\
    (forall req',
       method req' = GET \/ method req' = HEAD ->
       is_Some (matchPath inventoryPath (path req')) ->
       (handle cache req' s').1 =
         RJson 200 (BList (itemToDTO req' <$> inventory s ++ [item]))) /\
    ((nextId s < 2 ^ 53)%Z ->
     Forall (fun it => (id it < id item)%Z) (inventory s) /\
     nextId s' = (nextId s + 1)%Z /\
     (forall reqs0 reqs1,
        reqs = reqs0 ++ reqs1 ->
        reqs0 = [] \/
          (exists reqs' r d,
             reqs0 = reqs' ++ [r] /\
             (handle cache r (run cache reqs' (startup disk))).1
               = RJson 201 (BItem d)) ->
        highestKept cache reqs1 (run cache reqs0 (startup disk)) = true ->
        id item = (maxId (inventory s) + 1)%Z) /\
     findItem (Some (id item)) (inventory s') = Some item /\
     (forall req' ps,
        method req' = GET \/ method req' = HEAD ->
        matchPath itemPath (path req') = Some ps ->
        parseInt (paramId ps) = Some (id item) ->
        (handle cache req' s').1 = RJson 200 (BItem (itemToDTO req' item))) /\
     (forall req',
        method req' = GET ->
        path req' = [lit "inventory"; decimal (id item)] ->
        (handle cache req' s').1 = RJson 200 (BItem (itemToDTO req' item)))).
Proof.
  intros s Hm Hp Hname Hn.
  destruct (register_success req s n Hname Hn) as (item & Hreg & Hid & Hnm & _).
  destruct (uploadSingle_inventory req s) as [Uinv Unext].
  destruct (run_sound cache disk reqs) as (Hpos & Hdbl & _). fold s in Hpos, Hdbl.
  exists item. rewrite (handle_register _ _ _ Hm Hp), Hreg. simpl.
  rewrite Uinv, Unext. split_and!; try done.
  { intros req' Hm' Hp'. rewrite (handle_listItems _ _ _ Hm' Hp').
    unfold listItems. simpl. by rewrite Uinv. }
  intros Hsafe.
  pose proof (run_belowCounter cache disk reqs Hsafe) as Hbelow. fold s in Hbelow.
  assert (Hlt : Forall (fun it => (id it < id item)%Z) (inventory s)).
  { rewrite Hid. exact Hbelow. }
  assert (Hfound : findItem (Some (id item)) (inventory s ++ [item]) = Some item).
  { rewrite findItem_entry. by rewrite findEntry_snoc. }
  split_and!; try done.
  - apply increment_safe. lia.
  - intros reqs0 reqs1 Hreqs Hstart Hkept.
    assert (Ht0 : tight (run cache reqs0 (startup disk))).
    { destruct Hstart as [->|(reqs' & r & d & -> & Hd)]; [apply startup_tight|].
      rewrite run_snoc.
      pose proof (run_prefix_counter cache disk reqs' ([r] ++ reqs1)) as Hmono.
      rewrite app_assoc, <- Hreqs in Hmono. fold s in Hmono.
      eapply effect_created_tight; [apply handle_effect|exact Hd| |].
      - apply run_sound.
      - apply run_belowCounter. lia. }
    assert (Ht : tight s).
    { unfold s. rewrite Hreqs, run_app.
      apply run_tight; [apply run_sound|done|done]. }
    unfold tight in Ht. rewrite initialNextId_max in Ht.
    rewrite Ht in Hsafe.
    destruct (increment_below _ (maxId_nonneg _) Hsafe) as [E _].
    by rewrite Hid, Ht, E.
  - intros req' ps Hm' Hp' Hparse. rewrite (handle_getItem _ _ _ _ Hm' Hp').
    unfold getItem. simpl. by rewrite Hparse, Uinv, Hfound.
  - intros req' Hm' Hpath.
    destruct (matchPath_decimal (id item)) as [Hp' Hparse].
    rewrite <- Hpath in Hp'.
    rewrite (handle_getItem _ _ _ _ (or_introl Hm') Hp').
    unfold getItem. simpl. by rewrite Hparse, Uinv, Hfound.
Qed.

(** ** Photo files *)



Lemma setPhoto_found ps req s i item u :
  findEntry (parseInt (paramId ps)) (inventory s) = Some (i, item) ->
  file req = Some u ->
  setPhoto ps req s =
    (RJson 200 (BItem (itemToDTO req (withPhoto (uniqueName u) item))),
     saveInventory
       (setInventory (<[i := withPhoto (uniqueName u) item]> (inventory s))
          (uploadSingle req s).2)).
Proof.
  intros Hfind Hu. unfold setPhoto.
  destruct (uploadSingle_inventory req s) as [Uinv _].
  unfold uploadSingle in *. rewrite Hu in *. simpl in *. by rewrite Hfind.
Qed.


(** ** Persistence *)

Lemma photoOf_uniqueName item u :
  photoFilename item = Some (uniqueName u) -> photoOf item = Some (uniqueName u).
Proof. unfold photoOf. by intros ->. Qed.

Lemma photoOf_same item item' :
  photoFilename item' = photoFilename item -> photoOf item' = photoOf item.
Proof. unfold photoOf. by intros ->. Qed.

Lemma uploadSingle_name req s :
  (uploadSingle req s).1 = uniqueName <$> file req.
Proof. unfold uploadSingle. by destruct (file req). Qed.

(** A mutation leaves the file equal to the store; anything else leaves
    the store and the file as they were. *)
Lemma effect_persisted req s x :
  Effect req s x -> ownPhotos s ->
  ownPhotos x.2 /\
  (isMutation req x.1 = true -> persisted x.2) /\
  (isMutation req x.1 = false ->
     inventory x.2 = inventory s /\ nextId x.2 = nextId s /\
     files x.2 !! INVENTORY_FILE = files s !! INVENTORY_FILE).
Proof.
  unfold ownPhotos, persisted.
  destruct (uploadSingle_inventory req s) as [Uinv Unext].
  intros [r s1 Hs1 Hr|item Hm Hid Hph|i item item' s1 Hm Hs1 Hi Hid Hph|
          ps i removed Hm Hp Hfind] Hown; simpl.
  - assert (inventory s1 = inventory s /\ nextId s1 = nextId s /\
            files s1 !! INVENTORY_FILE = files s !! INVENTORY_FILE)
      as (E1 & E2 & E3).
    { destruct Hs1 as [->| ->]; [done|].
      by rewrite Uinv, Unext, uploadSingle_inventory_file. }
    rewrite E1. split_and!; [done|congruence|done].
  - rewrite Uinv. split_and!; [|by rewrite lookup_insert_eq|done].
    apply Forall_app. split; [done|]. constructor; [|done].
    rewrite uploadSingle_name in Hph. destruct (file req) as [u|]; simpl in Hph.
    + rewrite (photoOf_uniqueName _ _ Hph). intros [= Hu].
    + unfold photoOf. by rewrite Hph.
  - split_and!; [|by rewrite lookup_insert_eq|].
    + apply Forall_insert; [done|].
      destruct Hph as [Hsame|(u & _ & Hu)].
      * rewrite (photoOf_same _ _ Hsame).
        by eapply (Forall_lookup_1 _ _ _ _ Hown).
      * rewrite (photoOf_uniqueName _ _ Hu). intros [= Hu'].
    + rewrite Hm. done.
  - destruct (deleteItem_found ps req s i removed Hfind)
      as (Hr & Hinv & Hnext & _ & _ & Hfile).
    rewrite Hr, Hinv. simpl. rewrite Hm. split_and!.
    + by apply Forall_delete.
    + intros _. apply Hfile.
      apply findEntry_Some in Hfind as (Hi & _).
      by eapply (Forall_lookup_1 _ _ _ _ Hown).
    + done.
Qed.

Lemma run_ownPhotos cache reqs s :
  ownPhotos s -> ownPhotos (run cache reqs s).
Proof.
  intros Hown. induction reqs as [|req reqs IH] using rev_ind; [done|].
  rewrite run_snoc.
  by destruct (effect_persisted req _ _ (handle_effect cache req _) IH).
Qed.

(** C10: when the inventory file is absent, or holds text that is not
    parsable JSON, the service starts with an empty inventory and the
    counter at 1; nothing is written at startup, and an unparsable file
    costs one line on the error console.  From then on the file is
    either still what it was, with the store still empty and the counter
    still 1, or it holds exactly the present store; every mutation leaves
    it holding the store. *)
Theorem startup_without_inventory cache disk :
  disk !! INVENTORY_FILE = None \/
    (exists b, disk !! INVENTORY_FILE = Some (Blob b)) ->
  inventory (startup disk) = [] /\
  nextId (startup disk) = 1%Z /\
  files (startup disk) = disk /\
  (loadInventory disk).2 =
    match disk !! INVENTORY_FILE with
    | Some _ => [lit "Error reading inventory file:"]
    | None => []
    end /\
  forall reqs,
    let s := run cache reqs (startup disk) in
    (persisted s \/
     (files s !! INVENTORY_FILE = disk !! INVENTORY_FILE /\
      inventory s = [] /\ nextId s = 1%Z)) /\
    (forall req,
       isMutation req (handle cache req s).1 = true ->
       persisted (handle cache req s).2).
Proof.
  intros Hdisk.
  assert (Hload : (loadInventory disk).1 = []).
  { unfold loadInventory. by destruct Hdisk as [->|[b ->]]. }
  assert (Hinv : inventory (startup disk) = []) by done.
  assert (Hown : ownPhotos (startup disk)).
  { unfold ownPhotos. rewrite Hinv. constructor. }
  split_and!; try done.
  - unfold startup, initialNextId. simpl. by rewrite Hload.
  - unfold loadInventory. by destruct Hdisk as [->|[b ->]].
  - intros reqs. simpl. split.
    + induction reqs as [|req reqs IH] using rev_ind.
      { right. split_and!; [done|done|].
        unfold startup, initialNextId. simpl. by rewrite Hload. }
      rewrite run_snoc.
      destruct (effect_persisted req _ _
                  (handle_effect cache req (run cache reqs (startup disk)))
                  (run_ownPhotos cache reqs _ Hown)) as (_ & Hmut & Hquiet).
      destruct (isMutation req (handle cache req _).1) eqn:E; [left; auto|].
      destruct (Hquiet eq_refl) as (E1 & E2 & E3).
      destruct IH as [IH|(F1 & F2 & F3)].
      * left. unfold persisted in *. by rewrite E3, E1.
      * right. by rewrite E1, E2, E3.
    + intros req.
      by destruct (effect_persisted req _ _
                  (handle_effect cache req (run cache reqs (startup disk)))
                  (run_ownPhotos cache reqs _ Hown)) as (_ & Hmut & _).
Qed.

(** ** The photo route *)

Lemma isAbsolute_pathJoin dir name :
  isAbsolute dir = true -> isAbsolute (pathJoin dir name) = true.
Proof. by destruct dir. Qed.

(** With an absolute cache directory the photo route answers 404 exactly
    when the item, its photo reference or the file is missing, and
    otherwise sends the file as [image/jpeg]. *)
Lemma getPhoto_absolute_cache cache req s ps :
  isAbsolute cache = true ->
  method req = GET \/ method req = HEAD ->
  matchPath photoPath (path req) = Some ps ->
  handle cache req s =
    (match findItem (parseInt (paramId ps)) (inventory s) with
     | Some item =>
         match photoOf item with
         | Some f =>
             match files s !! f with
             | Some c => RFile (lit "image/jpeg") c
             | None => notFound "Photo file not found"
             end
         | None => notFound "Photo not found"
         end
     | None => notFound "Photo not found"
     end, s).
Proof.
  intros Habs Hm Hp. rewrite (handle_getPhoto _ _ _ _ Hm Hp). unfold getPhoto.
  destruct (findItem _ _) as [item|]; [|done].
  destruct (photoOf item) as [f|]; [|done].
  destruct (files s !! f) as [c|]; [|done].
  unfold sendFile. by rewrite isAbsolute_pathJoin.
Qed.

(** With a relative cache directory an existing photo is not served:
    [sendFile] throws. *)
Lemma getPhoto_relative_cache cache req s ps item f c :
  isAbsolute cache = false -> cache <> [] ->
  method req = GET \/ method req = HEAD ->
  matchPath photoPath (path req) = Some ps ->
  findItem (parseInt (paramId ps)) (inventory s) = Some item ->
  photoOf item = Some f ->
  files s !! f = Some c ->
  handle cache req s = (RFault, s).
Proof.
  intros Hrel Hne Hm Hp Hitem Hf Hc.
  rewrite (handle_getPhoto _ _ _ _ Hm Hp). unfold getPhoto.
  rewrite Hitem, Hf, Hc. unfold sendFile, pathJoin.
  destruct cache as [|a cache]; [done|]. simpl in *. by rewrite Hrel.
Qed.

(** C8 at a cache directory given as [./cache]: the item exists, it has
    a photo reference and the file is on disk, yet the answer is the
    fault of [sendFile], not the file. *)
Theorem getPhoto_relative_cache_fault :
  findItem (Some 1%Z) (inventory drillWithPhoto)
    = Some (withPhoto drillPhoto drill) /\
  photoOf (withPhoto drillPhoto drill) = Some drillPhoto /\
  files drillWithPhoto !! drillPhoto = Some (Blob [255; 216; 255]%N) /\
  handle (lit "./cache") getDrillPhoto drillWithPhoto
    = (RFault, drillWithPhoto) /\
  handle (lit "/srv/cache") getDrillPhoto drillWithPhoto
    = (RFile (lit "image/jpeg") (Blob [255; 216; 255]%N), drillWithPhoto).
Proof. split_and!; by vm_compute. Qed.

(** ** Methods and unknown paths *)

Lemma matches_false pat p : matches pat p = false -> matchPath pat p = None.
Proof.
  unfold matches. intros H%bool_decide_eq_false.
  destruct (matchPath pat p); [|done]. destruct H. eauto.
Qed.

Lemma recognized_false p :
  recognized p = false ->
  matchPath [Lit "register"] p = None /\
  matchPath [Lit "inventory"] p = None /\
  matchPath [Lit "inventory"; Param "id"] p = None /\
  matchPath [Lit "inventory"; Param "id"; Lit "photo"] p = None /\
  matchPath [Lit "search"] p = None.
Proof.
  unfold recognized, routes. simpl. rewrite !orb_false_iff.
  intros (H1 & H2 & H3 & H4 & H5 & _). by split_and!; apply matches_false.
Qed.

Lemma formPage_false p :
  formPage p = false ->
  matchPath [Lit "RegisterForm.html"] p = None /\
  matchPath [Lit "SearchForm.html"] p = None.
Proof.
  unfold formPage, formPaths. simpl. rewrite !orb_false_iff.
  intros (H1 & H2 & _). by split_and!; apply matches_false.
Qed.

Ltac skip_layer Hm :=
  rewrite dispatch_cons; unfold matchLayer; cbn [matcher handler];
  try rewrite Hm; eval_closed; cbv match.

Ltac contradict_method Hm H :=
  exfalso; apply H; rewrite ?Hm;
  first [ apply (bool_decide_unpack _); vm_compute; reflexivity
        | split; [reflexivity|apply (bool_decide_unpack _); vm_compute; reflexivity] ].

(** C9, as the code has it: on one of the five API paths a method that
    the path does not list is answered 405, except HEAD where GET is
    listed, which the GET handler serves; on any other path the answer
    is 404 [{error: "Not Found"}], except for GET and HEAD on the two
    bundled form pages.  In both cases the state is unchanged. *)
Theorem unlisted_method_or_unknown_path cache req s :
  (forall pat ms,
     (pat, ms) ∈ routes ->
     is_Some (matchPath pat (path req)) ->
     method req ∉ ms ->
     ~ (method req = HEAD /\ GET ∈ ms) ->
     handle cache req s = (methodNotAllowed, s)) /\
  (recognized (path req) = false ->
   formPage (path req) && bool_decide (method req ∈ [GET; HEAD]) = false ->
   handle cache req s = (RJson 404 (BError (lit "Not Found")), s)).
Proof.
  split.
  - intros pat ms Hin [ps Hp] Hms Hhead. unfold routes in Hin.
    repeat (apply elem_of_cons in Hin as [[= -> ->]|Hin]);
      [..|by apply elem_of_nil in Hin];
      destruct (method req) eqn:Hm;
      try contradict_method Hm Hms;
      try contradict_method Hm Hhead.
    all: by walk_stack Hm Hp.
  - intros (H1 & H2 & H3 & H4 & H5)%recognized_false Hform.
    assert (Hforms : method req = GET \/ method req = HEAD ->
              matchPath [Lit "RegisterForm.html"] (path req) = None /\
              matchPath [Lit "SearchForm.html"] (path req) = None).
    { intros Hm. apply formPage_false.
      destruct (formPage (path req)); [|done]. simpl in Hform.
      apply bool_decide_eq_false in Hform. destruct Hform.
      destruct Hm as [->| ->]; apply (bool_decide_unpack _); vm_compute; reflexivity. }
    unfold handle, app.
    destruct (method req) eqn:Hm;
      try (destruct Hforms as [F1 F2]; [by auto|]);
      repeat (skip_layer Hm;
              rewrite ?H1, ?H2, ?H3, ?H4, ?H5, ?F1, ?F2; cbv match);
      reflexivity.
Qed.

(** * Concrete runs *)

(** The worked example: register a drill, read it back, delete it, and
    find it gone. *)
Example drill_lifecycle :
  let dto := {| dto_id := 1; dto_inventory_name := VStr (lit "Drill");
                dto_description := VStr []; dto_photo_url := None |} in
  let get := request GET [lit "inventory"; lit "1"] ∅ None in
  let s1 := (handle sampleCache (registerReq "Drill") (startup ∅)).2 in
  let s2 := (handle sampleCache (deleteReq "1") s1).2 in
  (handle sampleCache (registerReq "Drill") (startup ∅)).1
    = RJson 201 (BItem dto) /\
  (handle sampleCache get s1).1 = RJson 200 (BItem dto) /\
  (handle sampleCache (deleteReq "1") s1).1
    = RJson 200 (BMessage (lit "Item deleted")) /\
  (handle sampleCache get s2).1 = notFound "Item not found".
Proof. by vm_compute. Qed.

Example parseInt_prefix : parseInt (lit " -7kg") = Some (-7)%Z.
Proof. reflexivity. Qed.

Example parseInt_none : parseInt (lit "abc") = NaN.
Proof. reflexivity. Qed.

Example trim_both : trim (lit "  Drill ") = lit "Drill".
Proof. reflexivity. Qed.

Example uniqueName_sample :
  uniqueName newPhoto = lit "photo_1700000000999_drill2.jpg".
Proof. reflexivity. Qed.

(** [++] adds one up to [2^53] and not there; above, it rounds to the
    even neighbour. *)
Example increment_at_2_53 :
  increment (2 ^ 53 - 1) = (2 ^ 53)%Z /\
  increment (2 ^ 53) = (2 ^ 53)%Z /\
  increment (2 ^ 53 + 2) = (2 ^ 53 + 4)%Z.
Proof. by vm_compute. Qed.

Example numberToString_large :
  numberToString (2 ^ 53) = lit "9007199254740992" /\
  numberToString (2 ^ 64) = lit "18446744073709552000" /\
  numberToString (10 ^ 21) = lit "1e+21" /\
  numberToString (- 2 ^ 70) = lit "-1.1805916207174113e+21".
Proof. by vm_compute. Qed.

(** From [1e21] on, the link in a DTO carries the id in exponent form,
    which [parseInt] reads as its first digits. *)
Example photoLink_exponent :
  let item := withPhoto drillPhoto
                {| id := 10 ^ 21; inventory_name := VStr (lit "Crane");
                   description := VStr []; photoFilename := None |} in
  dto_photo_url (itemToDTO getDrillPhoto item)
    = Some (lit "http://localhost:3000/inventory/1e+21/photo") /\
  parseInt (lit "1e+21") = Some 1%Z.
Proof. by vm_compute. Qed.

(** C1, as stated, fails after a delete: with items 1 and 2 registered
    and item 2 deleted, the store holds id 1 only, yet the next register
    is given id 3, not 2.  It fails at [2^53] as well: there [++] leaves
    the counter where it is, so the next register is given the highest id
    of the store once more, and get-by-id returns the older item. *)
Lemma register_max_plus_one_counterexample :
  (let s := run sampleCache [registerReq "Drill"; registerReq "Saw"; deleteReq "2"]
              (startup ∅) in
   id <$> inventory s = [1%Z] /\
   initialNextId (inventory s) = 2%Z /\
   exists d, (handle sampleCache (registerReq "Plane") s).1 = RJson 201 (BItem d)
             /\ dto_id d = 3%Z) /\
  (let s := run sampleCache [registerReq "Saw"] (startup anvilDisk) in
   let s' := (handle sampleCache (registerReq "Vise") s).2 in
   maxId (inventory s) = (2 ^ 53)%Z /\
   exists d d',
     (handle sampleCache (registerReq "Vise") s).1 = RJson 201 (BItem d) /\
     dto_id d = (2 ^ 53)%Z /\
     (handle sampleCache (getReq [lit "inventory"; lit "9007199254740992"]) s').1
       = RJson 200 (BItem d') /\
     dto_inventory_name d' = VStr (lit "Saw")).
Proof.
  split.
  - vm_compute. split_and!; [done|done|]. eexists. split; reflexivity.
  - vm_compute. split; [done|]. do 2 eexists. split_and!; reflexivity.
Qed.

(** C2, as stated, fails once the counter has reached [2^53]: started
    over a store whose highest id is [2^53 - 1], the service gives the id
    [2^53] to a create and, that item deleted, gives it again to the next
    create. *)
Lemma id_reused_counterexample :
  let s0 := startup anvilDisk in
  let s1 := (handle sampleCache (registerReq "Saw") s0).2 in
  let s2 := (handle sampleCache (deleteReq "9007199254740992") s1).2 in
  nextId s0 = (2 ^ 53)%Z /\
  exists d1 d2,
    (handle sampleCache (registerReq "Saw") s0).1 = RJson 201 (BItem d1) /\
    (handle sampleCache (deleteReq "9007199254740992") s1).1
      = RJson 200 (BMessage (lit "Item deleted")) /\
    (handle sampleCache (registerReq "Vise") s2).1 = RJson 201 (BItem d2) /\
    dto_id d1 = (2 ^ 53)%Z /\ dto_id d2 = (2 ^ 53)%Z.
Proof. vm_compute. split; [done|]. do 2 eexists. split_and!; reflexivity. Qed.

(** With a second item under the same id, get-by-id still answers after
    a delete: it returns the other item. *)
Example delete_with_duplicate_id :
  let bits := {| id := 1; inventory_name := VStr (lit "Drill bits");
                 description := VStr []; photoFilename := None |} in
  let get := getReq [lit "inventory"; lit "1"] in
  let s := {| inventory := [drill; sawItem; bits]; nextId := 3; files := ∅ |} in
  let s' := (handle sampleCache (deleteReq "1") s).2 in
  inventory s' = [sawItem; bits] /\
  (handle sampleCache get s').1 = RJson 200 (BItem (itemToDTO get bits)).
Proof. by vm_compute. Qed.

(** C1 fails for an empty store as well: once item 1 is deleted the store
    is empty and the next id is 2, not 1. *)
Example register_after_emptying :
  let s := run sampleCache [registerReq "Drill"; deleteReq "1"] (startup ∅) in
  inventory s = [] /\
  exists d, (handle sampleCache (registerReq "Saw") s).1 = RJson 201 (BItem d)
            /\ dto_id d = 2%Z.
Proof. vm_compute. split; [done|]. eexists. split; reflexivity. Qed.


(** C9, as stated, fails on the bundled form page: the path is none of
    the five API paths, yet GET is answered with the page and not with
    the JSON 404. *)
Lemma register_form_counterexample :
  let req := request GET [lit "RegisterForm.html"] ∅ None in
  recognized (path req) = false /\
  handle sampleCache req oneDrill = (RPage (lit "RegisterForm.html"), oneDrill).
Proof. split; by vm_compute. Qed.

(** HEAD is not listed for [/inventory], yet it is served by the GET
    handler. *)
Example head_inventory_served :
  let req := request HEAD [lit "inventory"] ∅ None in
  (HEAD ∉ [GET]) /\
  handle sampleCache req (startup ∅) = (RJson 200 (BList []), startup ∅).
Proof. split; [by intros [=]%list_elem_of_singleton|by vm_compute]. Qed.

(** The theorems above, applied to the sample data. *)

Lemma register_assigns_counter_witness :
  let reqs := [registerReq "Drill"; registerReq "Saw"; deleteReq "1"] in
  method (registerReq "Plane") = POST /\
  is_Some (matchPath registerPath (path (registerReq "Plane"))) /\
  body (registerReq "Plane") !! lit "inventory_name" = Some (VStr (lit "Plane")) /\
  trim (lit "Plane") <> [] /\
  (nextId (run sampleCache reqs (startup ∅)) < 2 ^ 53)%Z /\
  highestKept sampleCache reqs (startup ∅) = true /\
  exists item,
    (handle sampleCache (registerReq "Plane")
       (run sampleCache reqs (startup ∅))).1
      = RJson 201 (BItem (itemToDTO (registerReq "Plane") item)) /\
    id item = 3%Z /\
    id item = (maxId (inventory (run sampleCache reqs (startup ∅))) + 1)%Z.
Proof.
  intros reqs.
  assert (H1 : method (registerReq "Plane") = POST) by reflexivity.
  assert (H2 : is_Some (matchPath registerPath (path (registerReq "Plane"))))
    by (vm_compute; eexists; reflexivity).
  assert (H3 : body (registerReq "Plane") !! lit "inventory_name"
               = Some (VStr (lit "Plane"))) by (vm_compute; reflexivity).
  assert (H4 : trim (lit "Plane") <> []) by (vm_compute; discriminate).
  assert (H5 : (nextId (run sampleCache reqs (startup ∅)) < 2 ^ 53)%Z)
    by (vm_compute; reflexivity).
  assert (H6 : highestKept sampleCache reqs (startup ∅) = true)
    by (vm_compute; reflexivity).
  split_and!; [exact H1|exact H2|exact H3|exact H4|exact H5|exact H6|].
  destruct (register_assigns_counter sampleCache ∅ reqs
              (registerReq "Plane") (lit "Plane") H1 H2 H3 H4)
    as (item & Hr & Hid & _ & _ & _ & _ & Hsafe).
  destruct (Hsafe H5) as (_ & _ & Hmax & _).
  exists item. split_and!; [exact Hr| |].
  - rewrite Hid. vm_compute. reflexivity.
  - exact (Hmax [] reqs eq_refl (or_introl eq_refl) H6).
Defined.

Lemma ids_never_reused_witness :
  (nextId (run sampleCache ([registerReq "Drill"] ++ [deleteReq "1"]) (startup ∅))
   < 2 ^ 53)%Z /\
  (handle sampleCache (registerReq "Saw")
     (run sampleCache ([registerReq "Drill"] ++ [deleteReq "1"]) (startup ∅))).1
    = RJson 201 (BItem saw) /\
  (forall it, it ∈ inventory (run sampleCache [registerReq "Drill"] (startup ∅)) ->
     id it <> dto_id saw).
Proof.
  assert (H0 : (nextId (run sampleCache ([registerReq "Drill"] ++ [deleteReq "1"])
                          (startup ∅)) < 2 ^ 53)%Z)
    by (vm_compute; reflexivity).
  assert (H : (handle sampleCache (registerReq "Saw")
                 (run sampleCache ([registerReq "Drill"] ++ [deleteReq "1"])
                    (startup ∅))).1 = RJson 201 (BItem saw))
    by (vm_compute; reflexivity).
  split_and!; [exact H0|exact H|].
  exact (proj1 (ids_never_reused sampleCache ∅ [registerReq "Drill"]
                  [deleteReq "1"] (registerReq "Saw") saw H0 H)).
Defined.

Lemma register_blank_name_rejected_witness :
  method (registerReq "   ") = POST /\
  is_Some (matchPath registerPath (path (registerReq "   "))) /\
  blankName (body (registerReq "   ") !! lit "inventory_name") /\
  (handle sampleCache (registerReq "   ") oneDrill).1
    = RJson 400 (BError (lit "inventory_name is required")) /\
  inventory (handle sampleCache (registerReq "   ") oneDrill).2 = [drill].
Proof.
  assert (H1 : method (registerReq "   ") = POST) by reflexivity.
  assert (H2 : is_Some (matchPath registerPath (path (registerReq "   "))))
    by (vm_compute; eexists; reflexivity).
  assert (H3 : blankName (body (registerReq "   ") !! lit "inventory_name")).
  { right. exists (lit "   "). split; vm_compute; reflexivity. }
  split_and!; [exact H1|exact H2|exact H3| |];
    destruct (register_blank_name_rejected sampleCache (registerReq "   ")
                oneDrill H1 H2 H3) as (Hr & Hinv & _); [exact Hr|exact Hinv].
Defined.

Lemma update_replaces_supplied_fields_witness :
  method putDescriptionReq = PUT /\
  matchPath itemPath (path putDescriptionReq) = Some [(lit "id", lit "1")] /\
  findEntry (parseInt (paramId [(lit "id", lit "1")])) (inventory oneDrill)
    = Some (0%nat, drill) /\
  exists item',
    (handle sampleCache putDescriptionReq oneDrill).1
      = RJson 200 (BItem (itemToDTO putDescriptionReq item')) /\
    inventory_name item' = VStr (lit "Drill") /\
    description item' = VStr [].
Proof.
  assert (H1 : method putDescriptionReq = PUT) by reflexivity.
  assert (H2 : matchPath itemPath (path putDescriptionReq)
               = Some [(lit "id", lit "1")]) by (vm_compute; reflexivity).
  assert (H3 : findEntry (parseInt (paramId [(lit "id", lit "1")]))
                 (inventory oneDrill) = Some (0%nat, drill))
    by (vm_compute; reflexivity).
  split_and!; [exact H1|exact H2|exact H3|].
  destruct (update_replaces_supplied_fields sampleCache putDescriptionReq
              oneDrill _ _ _ H1 H2 H3) as (item' & Hr & Hn & Hd & _).
  exists item'. split_and!; [exact Hr|exact Hn|exact Hd].
Defined.




Lemma unlisted_method_or_unknown_path_witness :
  handle sampleCache (request PATCH [lit "inventory"; lit "1"] ∅ None) oneDrill
    = (methodNotAllowed, oneDrill) /\
  handle sampleCache (request GET [lit "items"] ∅ None) oneDrill
    = (RJson 404 (BError (lit "Not Found")), oneDrill).
Proof.
  split.
  - apply (proj1 (unlisted_method_or_unknown_path sampleCache
                    (request PATCH [lit "inventory"; lit "1"] ∅ None) oneDrill)
             itemPath [GET; PUT; DELETE]).
    + vm_compute. do 2 right. left.
    + vm_compute. eexists. reflexivity.
    + apply (bool_decide_unpack _). vm_compute. reflexivity.
    + intros [H _]. discriminate H.
  - apply (proj2 (unlisted_method_or_unknown_path sampleCache
                    (request GET [lit "items"] ∅ None) oneDrill));
      vm_compute; reflexivity.
Defined.

Lemma startup_without_inventory_witness :
  (exists b, corruptDisk !! INVENTORY_FILE = Some (Blob b)) /\
  inventory (startup corruptDisk) = [] /\
  nextId (startup corruptDisk) = 1%Z /\
  persisted (handle sampleCache (registerReq "Drill") (startup corruptDisk)).2.
Proof.
  assert (H : exists b, corruptDisk !! INVENTORY_FILE = Some (Blob b))
    by (vm_compute; eexists; reflexivity).
  split; [exact H|].
  destruct (startup_without_inventory sampleCache corruptDisk (or_intror H))
    as (Hinv & Hnext & _ & _ & Hrun).
  split_and!; [exact Hinv|exact Hnext|].
  apply (proj2 (Hrun [])). vm_compute. reflexivity.
Defined.

(** * Further properties of the handlers *)

(** ** Accounting *)

Lemma isCreated_mutation req r : isCreated r = true -> isMutation req r = true.
Proof.
  destruct r as [st b| | | |]; try done. unfold isCreated, isMutation.
  destruct st as [|p|p]; try done.
  repeat (destruct p as [p|p|]; try done).
Qed.

Lemma isDeleted_mutation req r : isDeleted req r = true -> isMutation req r = true.
Proof.
  destruct r as [st b| | | |]; try done. unfold isDeleted, isMutation.
  destruct st as [|p|p]; try done.
  repeat (destruct p as [p|p|]; try done).
  intros ->%bool_decide_eq_true. done.
Qed.

(** X1: the counter and the length of the store move together with the
    response: a 201 applies [++] to the counter, which adds one as long
    as the counter is below [2^53], and adds one item; a 200 to a DELETE
    takes one item away; every other response leaves both as they were;
    a refused request never uses up an id. *)
Theorem counter_and_length_accounting cache req s :
  let r := (handle cache req s).1 in
  let s' := (handle cache req s).2 in
  nextId s' = (if isCreated r then increment (nextId s) else nextId s) /\
  ((0 <= nextId s < 2 ^ 53)%Z ->
   nextId s' = (if isCreated r then nextId s + 1 else nextId s)%Z) /\
  length (inventory s') =
    if isCreated r then S (length (inventory s))
    else if isDeleted req r then pred (length (inventory s))
    else length (inventory s).
Proof.
  simpl.
  assert (Hsafe : (0 <= nextId s < 2 ^ 53)%Z ->
                  increment (nextId s) = (nextId s + 1)%Z).
  { intros. apply increment_safe. lia. }
  destruct (uploadSingle_inventory req s) as [Uinv Unext].
  destruct (handle_effect cache req s)
    as [r s1 Hs1 Hr|item Hm Hid Hph|i item item' s1 Hm Hs1 Hi Hid Hph|
        ps i removed Hm Hp Hfind]; simpl.
  - assert (inventory s1 = inventory s /\ nextId s1 = nextId s) as [-> ->]
      by by destruct Hs1 as [->| ->].
    destruct (isCreated r) eqn:Ec.
    { apply (isCreated_mutation req) in Ec. congruence. }
    destruct (isDeleted req r) eqn:Ed; [|done].
    apply isDeleted_mutation in Ed. congruence.
  - rewrite Uinv, Unext, length_app. simpl. split_and!; [done|done|lia].
  - rewrite Hm, length_insert.
    assert (nextId s1 = nextId s) as -> by by destruct Hs1 as [->| ->].
    done.
  - destruct (deleteItem_found ps req s i removed Hfind)
      as (-> & -> & -> & _).
    simpl. rewrite Hm. simpl. split_and!; [done|done|].
    apply findEntry_Some in Hfind as (Hi & _).
    rewrite length_delete by eauto. lia.
Qed.

(** ** Requests that do not write *)

(** X2: only POST, PUT and DELETE can change anything: a request with
    any other method leaves the inventory, the counter and every file of
    the cache directory as they were, whatever its path and body. *)
Theorem other_methods_change_nothing cache req s :
  method req <> POST -> method req <> PUT -> method req <> DELETE ->
  (handle cache req s).2 = s.
Proof.
  intros Hpost Hput Hdel.
  destruct (handle_cases cache req s)
    as [(r & -> & _)|[[Hm _]|[(Hm & _)|[(Hm & _)|(Hm & _)]]]]; done.
Qed.

(** ** Ids that are not numbers *)

Lemma findEntry_NaN inv : findEntry NaN inv = None.
Proof. apply findEntry_None, Forall_forall. by intros it _. Qed.

(** X3: on [/inventory/:id] an id with no leading integer is treated as
    an unknown id: GET, HEAD, PUT and DELETE answer 404 "Item not found"
    (not 400, unlike [/search]) and nothing is changed. *)
Theorem non_numeric_path_id_not_found cache req s ps :
  matchPath itemPath (path req) = Some ps ->
  parseInt (paramId ps) = NaN ->
  method req ∈ [GET; HEAD; PUT; DELETE] ->
  handle cache req s = (notFound "Item not found", s).
Proof.
  intros Hp Hnan Hm.
  repeat (apply elem_of_cons in Hm as [Hm|Hm]); [..|by apply elem_of_nil in Hm].
  - rewrite (handle_getItem _ _ _ _ (or_introl Hm) Hp). unfold getItem.
    by rewrite Hnan, findItem_entry, findEntry_NaN.
  - rewrite (handle_getItem _ _ _ _ (or_intror Hm) Hp). unfold getItem.
    by rewrite Hnan, findItem_entry, findEntry_NaN.
  - rewrite (handle_updateItem _ _ _ _ Hm Hp). unfold updateItem.
    by rewrite Hnan, findEntry_NaN.
  - rewrite (handle_deleteItem _ _ _ _ Hm Hp). unfold deleteItem.
    by rewrite Hnan, findEntry_NaN.
Qed.

(** ** The form pages *)

(** X4: the two form pages have a GET route and no method guard: GET
    and HEAD on [/RegisterForm.html] and [/SearchForm.html] are answered
    with the bundled page, every other method with the generic 404 (not
    405); nothing is changed either way. *)
Theorem form_pages_served cache req s name :
  name ∈ ["RegisterForm.html"; "SearchForm.html"]%string ->
  is_Some (matchPath [Lit name] (path req)) ->
  handle cache req s =
    (if bool_decide (method req ∈ [GET; HEAD]) then RPage (lit name)
     else RJson 404 (BError (lit "Not Found")), s).
Proof.
  intros Hname [ps Hp].
  repeat (apply elem_of_cons in Hname as [->|Hname]);
    [..|by apply elem_of_nil in Hname];
    destruct (method req) eqn:Hm; unfold handle, app;
    repeat (layer Hm Hp; try reflexivity).
Qed.

(** ** Responses *)

(** A stack closed by a path-less layer that always answers. *)
Lemma dispatch_closed (P : Response * State -> Prop) stack L req s :
  matcher L = Use ->
  (forall ps, exists r s', handler L ps req s = Done r s' /\ P (r, s')) ->
  Forall (fun L' => forall ps r s',
            handler L' ps req s = Done r s' -> P (r, s')) stack ->
  P (dispatch (stack ++ [L]) req s).
Proof.
  intros Huse Hlast. induction 1 as [|L' rest HL' _ IH]; simpl.
  - unfold matchLayer. rewrite Huse.
    destruct (Hlast []) as (r & s' & -> & HP). done.
  - destruct (matchLayer L' req) as [ps|]; [|done].
    destruct (handler L' ps req s) as [r s'|] eqn:Hh; [|done]. eauto.
Qed.

Ltac shaped :=
  simpl; try done;
  first [ reflexivity | apply (bool_decide_unpack _); vm_compute; reflexivity ].

Ltac split_handler H :=
  repeat match type of H with
         | context [match ?x with _ => _ end] => destruct x
         | context [if ?b then _ else _] => destruct b
         end.

(** X5: every response comes from the application's own handlers, never
    from Express's fallback page; an error body [{error}] always goes
    with 400, 404 or 405 and no other body does, an item is sent with
    200 or 201, a list, a search result and the delete message with 200,
    and a photo as [image/jpeg]. *)
Theorem responses_well_shaped cache req s :
  wellShaped (handle cache req s).1.
Proof.
  unfold handle.
  change (app cache) with (removelast (app cache) ++ [List.last (app cache)
            {| matcher := Use; handler := fun _ _ _ => Next |}]).
  apply (dispatch_closed (fun x => wellShaped x.1)); [done|..].
  - intros ps. eexists _, _. split; [reflexivity|shaped].
  - simpl. repeat apply Forall_cons_2; [..|apply Forall_nil_2];
      intros ps r s'; cbn [handler]; intros Hh;
      try apply answer_Done in Hh;
      unfold allow, page, register, getItem, updateItem, deleteItem, getPhoto,
        setPhoto, search, listItems, sendFile, notFound in Hh;
      split_handler Hh;
      first [ discriminate Hh | injection Hh as <- <-; shaped ].
Qed.

(** ** Photo links and photo round trips *)

Lemma matchPath_photo_decimal z :
  matchPath photoPath [lit "inventory"; decimal z; lit "photo"]
    = Some [(lit "id", decimal z)] /\
  parseInt (paramId [(lit "id", decimal z)]) = Some z.
Proof.
  pose proof (parseInt_decimal z) as Hz.
  destruct (decimal z) as [|c r] eqn:E; [done|].
  split; [done|]. unfold paramId. simpl. exact Hz.
Qed.

Lemma getPhoto_serves cache req s item f c :
  isAbsolute cache = true ->
  method req = GET ->
  path req = [lit "inventory"; decimal (id item); lit "photo"] ->
  findItem (Some (id item)) (inventory s) = Some item ->
  photoOf item = Some f ->
  files s !! f = Some c ->
  handle cache req s = (RFile (lit "image/jpeg") c, s).
Proof.
  intros Habs Hm Hpath Hitem Hf Hc.
  destruct (matchPath_photo_decimal (id item)) as [Hp Hparse].
  rewrite <- Hpath in Hp.
  rewrite (handle_getPhoto _ _ _ _ (or_introl Hm) Hp). unfold getPhoto.
  rewrite Hparse, Hitem, Hf, Hc. unfold sendFile.
  by rewrite isAbsolute_pathJoin.
Qed.

(** X6: the [photo_url] of a DTO leads back to the photo: for an item
    that is the one found under its id and has a photo on disk, a GET on
    the path [/inventory/<id>/photo], the id written with all its
    digits, sends that file (the cache directory being absolute); and
    for an id of magnitude below [2^53] this is the path that the DTO
    carries, after [<protocol>://<host>]. *)
Theorem photo_url_leads_to_photo cache req req' s item f c :
  isAbsolute cache = true ->
  findItem (Some (id item)) (inventory s) = Some item ->
  photoOf item = Some f ->
  files s !! f = Some c ->
  method req' = GET ->
  path req' = [lit "inventory"; decimal (id item); lit "photo"] ->
  ((Z.abs (id item) < 2 ^ 53)%Z ->
   dto_photo_url (itemToDTO req item)
     = Some (protocol req ++ lit "://" ++ host req ++ lit "/inventory/"
             ++ decimal (id item) ++ lit "/photo")) /\
  handle cache req' s = (RFile (lit "image/jpeg") c, s).
Proof.
  intros Habs Hitem Hf Hc Hm Hpath. split.
  - intros Hid. unfold itemToDTO, photoLink, baseUrl. simpl. rewrite Hf.
    rewrite (numberToString_safe _ Hid). by rewrite <- !app_assoc.
  - by eapply getPhoto_serves.
Qed.

(** X7: a photo sent with a successful register is stored under its
    multer name, the new item refers to it and its DTO has a photo link;
    as long as the counter is below [2^53] the photo can be fetched
    right away: GET [/inventory/<new id>/photo] sends the uploaded bytes
    (the cache directory being absolute). *)
Theorem registered_photo_is_served cache disk reqs req req' n u :
  let s := run cache reqs (startup disk) in
  let s' := (handle cache req s).2 in
  isAbsolute cache = true ->
  method req = POST ->
  is_Some (matchPath registerPath (path req)) ->
  body req !! lit "inventory_name" = Some (VStr n) ->
  trim n <> [] ->
  file req = Some u ->
  method req' = GET ->
  path req' = [lit "inventory"; decimal (nextId s); lit "photo"] ->
  (exists d, (handle cache req s).1 = RJson 201 (BItem d) /\
             dto_id d = nextId s /\ is_Some (dto_photo_url d)) /\
  files s' !! uniqueName u = Some (Blob (bytes u)) /\
  ((nextId s < 2 ^ 53)%Z ->
   handle cache req' s' = (RFile (lit "image/jpeg") (Blob (bytes u)), s')).
Proof.
  intros s s' Habs Hm Hp Hname Hn Hu Hm' Hpath. subst s'.
  destruct (register_success req s n Hname Hn) as (item & Hreg & Hid & _ & Hph).
  destruct (uploadSingle_inventory req s) as [Uinv Unext].
  rewrite uploadSingle_name, Hu in Hph. simpl in Hph.
  pose proof (photoOf_uniqueName _ _ Hph) as Hphoto.
  rewrite (handle_register _ _ _ Hm Hp), Hreg. simpl.
  assert (Hfile : <[INVENTORY_FILE := Document (inventory (uploadSingle req s).2 ++ [item])]>
                    (files (uploadSingle req s).2) !! uniqueName u
                  = Some (Blob (bytes u))).
  { rewrite lookup_insert_ne by (symmetry; apply uniqueName_not_inventory).
    unfold uploadSingle. rewrite Hu. simpl. apply lookup_insert_eq. }
  split_and!.
  - eexists. split; [reflexivity|]. simpl. rewrite Hphoto. split; [done|eauto].
  - exact Hfile.
  - intros Hsafe. rewrite <- Hid in Hpath.
    eapply getPhoto_serves; try done. simpl. rewrite Uinv.
    rewrite findItem_entry, findEntry_snoc; [done|].
    rewrite Hid. by apply run_belowCounter.
Qed.

(** X8: after a successful photo update, GET on the item's photo path
    sends the newly uploaded bytes (the item being the one found under
    its id, the cache directory absolute). *)
Theorem updated_photo_is_served cache req req' s ps i item u :
  isAbsolute cache = true ->
  method req = PUT ->
  matchPath photoPath (path req) = Some ps ->
  parseInt (paramId ps) = Some (id item) ->
  findEntry (Some (id item)) (inventory s) = Some (i, item) ->
  file req = Some u ->
  method req' = GET ->
  path req' = [lit "inventory"; decimal (id item); lit "photo"] ->
  let s' := (handle cache req s).2 in
  handle cache req' s' = (RFile (lit "image/jpeg") (Blob (bytes u)), s').
Proof.
  intros Habs Hm Hp Hparse Hfind Hu Hm' Hpath. simpl.
  rewrite <- Hparse in Hfind.
  rewrite (handle_setPhoto _ _ _ _ Hm Hp), (setPhoto_found _ _ _ _ _ _ Hfind Hu).
  simpl. rewrite Hparse in Hfind.
  eapply (getPhoto_serves _ _ _ (withPhoto (uniqueName u) item)); try done.
  - simpl. rewrite findItem_entry.
    by erewrite (findEntry_insert_same _ _ _ item).
  - simpl. rewrite lookup_insert_ne by (symmetry; apply uniqueName_not_inventory).
    unfold uploadSingle. rewrite Hu. simpl. apply lookup_insert_eq.
Qed.


(** X10: a register refused for its name has already stored the photo
    that came with it: the answer is 400, no item is created, and the
    uploaded file is in the cache directory. *)
Theorem refused_register_keeps_upload cache req s u :
  method req = POST ->
  is_Some (matchPath registerPath (path req)) ->
  blankName (body req !! lit "inventory_name") ->
  file req = Some u ->
  let s' := (handle cache req s).2 in
  (handle cache req s).1
    = RJson 400 (BError (lit "inventory_name is required")) /\
  inventory s' = inventory s /\
  files s' !! uniqueName u = Some (Blob (bytes u)).
Proof.
  intros Hm Hp Hblank Hu. simpl.
  rewrite (handle_register _ _ _ Hm Hp), (register_blank _ _ Hblank). simpl.
  unfold uploadSingle. rewrite Hu. simpl. split_and!; [done|done|].
  apply lookup_insert_eq.
Qed.

(** ** Composition *)

Lemma withFields_idem n d item :
  withDescription d (withName n (withDescription d (withName n item)))
  = withDescription d (withName n item).
Proof. by destruct n, d. Qed.

(** X11: an update is idempotent: sending the same PUT again gives the
    same response and leaves the state exactly as the first one did. *)
Theorem update_idempotent cache req s ps :
  method req = PUT ->
  matchPath itemPath (path req) = Some ps ->
  handle cache req (handle cache req s).2 = handle cache req s.
Proof.
  intros Hm Hp. rewrite !(handle_updateItem _ _ _ _ Hm Hp).
  unfold updateItem at 2 3.
  destruct (findEntry _ (inventory s)) as [[i item]|] eqn:Hfind; simpl.
  - set (item' := withDescription _ (withName _ item)).
    assert (Hid : id item' = id item).
    { subst item'. destruct (withName_fields (body req !! lit "inventory_name") item)
        as (_ & _ & N3 & _).
      destruct (withDescription_fields (body req !! lit "description")
                  (withName (body req !! lit "inventory_name") item))
        as (_ & _ & D3 & _). congruence. }
    unfold updateItem. simpl.
    rewrite (findEntry_insert_same _ _ _ _ item' Hfind Hid).
    fold item'. subst item'. rewrite withFields_idem.
    unfold saveInventory, setInventory. simpl.
    by rewrite list_insert_insert_eq, insert_insert_eq.
  - unfold updateItem. by rewrite Hfind.
Qed.

(** X12: a DELETE under the id a register has just assigned is answered
    200.  As long as the counter is below [2^53] it is the new item that
    goes: the list of items is back as it was and the photo that came
    with the register is removed, but not the id: the counter stays one
    ahead, and the inventory file holds the restored list. *)
Theorem register_then_delete cache disk reqs req del n :
  let s := run cache reqs (startup disk) in
  let s1 := (handle cache req s).2 in
  let s2 := (handle cache del s1).2 in
  method req = POST ->
  is_Some (matchPath registerPath (path req)) ->
  body req !! lit "inventory_name" = Some (VStr n) ->
  trim n <> [] ->
  method del = DELETE ->
  path del = [lit "inventory"; decimal (nextId s)] ->
  (handle cache del s1).1 = RJson 200 (BMessage (lit "Item deleted")) /\
  ((nextId s < 2 ^ 53)%Z ->
   inventory s2 = inventory s /\
   nextId s2 = (nextId s + 1)%Z /\
   files s2 !! INVENTORY_FILE = Some (Document (inventory s)) /\
   (forall u, file req = Some u -> files s2 !! uniqueName u = None)).
Proof.
  intros s s1 s2 Hm Hp Hname Hn Hmd Hpath. subst s2 s1.
  destruct (run_sound cache disk reqs) as (Hpos & _). fold s in Hpos.
  destruct (register_success req s n Hname Hn) as (item & Hreg & Hid & _ & Hph).
  destruct (uploadSingle_inventory req s) as [Uinv Unext].
  rewrite (handle_register _ _ _ Hm Hp), Hreg. simpl.
  set (s1 := saveInventory (append item (uploadSingle req s).2)).
  destruct (matchPath_decimal (nextId s)) as [Hpd Hparse].
  rewrite <- Hpath in Hpd. rewrite (handle_deleteItem _ _ _ _ Hmd Hpd).
  split.
  - assert (is_Some (findEntry (parseInt (paramId [(lit "id", decimal (nextId s))]))
                       (inventory s1))) as [[i removed] Hfind].
    { rewrite Hparse, <- Hid. simpl. rewrite Uinv.
      apply (list_find_elem_of _ _ item); [|done].
      apply elem_of_app. right. by apply list_elem_of_singleton. }
    by destruct (deleteItem_found _ del s1 _ _ Hfind) as (Hr & _).
  - intros Hsafe.
    assert (Hbelow : Forall (fun it => (id it < id item)%Z) (inventory s)).
    { rewrite Hid. by apply run_belowCounter. }
    assert (Hfind : findEntry (parseInt (paramId [(lit "id", decimal (nextId s))]))
                      (inventory s1) = Some (length (inventory s), item)).
    { rewrite Hparse, <- Hid. simpl. rewrite Uinv. by apply findEntry_snoc. }
    destruct (deleteItem_found _ del s1 _ _ Hfind)
      as (Hr & Hinv & Hnext & Hgone & _ & Hfile).
    assert (Hrestored : delete (length (inventory s)) (inventory s1) = inventory s).
    { simpl. rewrite Uinv. rewrite (delete_middle (inventory s) [] item).
      apply app_nil_r. }
    rewrite uploadSingle_name in Hph.
    rewrite Hinv, Hnext, Hrestored. simpl. rewrite Unext.
    split_and!; try done.
    + apply increment_safe. lia.
    + rewrite Hfile, Hrestored; [done|].
      destruct (file req) as [u|]; simpl in Hph.
      * rewrite (photoOf_uniqueName _ _ Hph). intros [= Hu].
      * unfold photoOf. by rewrite Hph.
    + intros u Hu. apply Hgone. rewrite Hu in Hph. simpl in Hph.
      by apply photoOf_uniqueName.
Qed.

(** ** Restart *)





(** ** Ids *)

(** X15: ids stay unique as long as the counter is below [2^53]: when
    the loaded store has pairwise distinct ids, so has the store after
    any sequence of requests, and every id in it is below the counter. *)
Theorem ids_stay_distinct cache disk reqs :
  NoDup (id <$> (loadInventory disk).1) ->
  let s := run cache reqs (startup disk) in
  (nextId s < 2 ^ 53)%Z ->
  NoDup (id <$> inventory s) /\
  Forall (fun it => (id it < nextId s)%Z) (inventory s).
Proof.
  intros Hnd s Hsafe. split.
  - by apply run_distinct.
  - by apply run_belowCounter.
Qed.

(** ** Stored file names *)

Lemma digits_app_acc d acc t :
  digits (Z.pos acc) (lit (NilEmpty.string_of_uint d) ++ t)
  = digits (Z.pos (Pos.of_uint_acc d acc)) t.
Proof.
  revert acc. induction d as [|d IH|d IH|d IH|d IH|d IH|d IH|d IH|d IH|d IH|d IH];
    intros acc; [done|..];
    cbn [NilEmpty.string_of_uint Pos.of_uint_acc]; rewrite lit_cons;
    rewrite <- app_comm_cons;
    match goal with
    | |- context [N_of_ascii ?c] =>
        let n := eval vm_compute in (N_of_ascii c) in
        change (N_of_ascii c) with n
    end;
    cbn [digits]; change (isDigit _) with true; cbv match;
    rewrite <- IH; f_equal; lia.
Qed.

Lemma digits_app d t :
  digits 0 (lit (NilEmpty.string_of_uint d) ++ t)
  = digits (Z.of_N (Pos.of_uint d)) t.
Proof.
  induction d as [|d IH|d IH|d IH|d IH|d IH|d IH|d IH|d IH|d IH|d IH];
    [done|..];
    cbn [NilEmpty.string_of_uint Pos.of_uint]; rewrite lit_cons;
    rewrite <- app_comm_cons;
    match goal with
    | |- context [N_of_ascii ?c] =>
        let n := eval vm_compute in (N_of_ascii c) in
        change (N_of_ascii c) with n
    end;
    cbn [digits]; change (isDigit _) with true; cbv match; [exact IH|..];
    cbn [Z.of_N]; rewrite <- digits_app_acc; f_equal.
Qed.

(** Reading back a decimal rendering that is followed by a character
    other than a digit gives the number. *)
Lemma parseInt_decimal_app z c t :
  isDigit c = false -> parseInt (decimal z ++ c :: t) = Some z.
Proof.
  intros Hc.
  assert (Hstop : forall a, digits a (c :: t) = a) by (intros a; simpl; by rewrite Hc).
  assert (Hnum : forall d, d <> Decimal.Nil ->
            parseInt (lit (NilEmpty.string_of_uint d) ++ c :: t)
              = Some (Z.of_N (Pos.of_uint d)) /\
            parseInt (45%N :: lit (NilEmpty.string_of_uint d) ++ c :: t)
              = Some (- Z.of_N (Pos.of_uint d))%Z).
  { intros d Hd. pose proof (digits_app d (c :: t)) as Hval.
    rewrite Hstop in Hval.
    destruct (string_of_uint_head d Hd) as (c0 & r & Hs & Hc0).
    destruct (isDigit_plain c0 Hc0) as (Hw & Hm & Hp).
    unfold parseInt. rewrite Hs in *. simpl. rewrite Hw. simpl.
    rewrite !Hm, !Hp, !Hc0.
    pose proof Hval as Hval'. simpl in Hval'. rewrite Hc0 in Hval'.
    change ((c0 :: r) ++ c :: t) with (c0 :: r ++ c :: t) in Hval.
    rewrite ?Hval, ?Hval'. split; f_equal; lia. }
  unfold decimal. destruct z as [|p|p]; cbn [Z.to_int NilZero.string_of_int].
  - vm_compute (lit _). unfold parseInt. simpl. by rewrite Hc.
  - destruct (Hnum (Pos.to_uint p) (Unsigned.to_uint_nonnil p)) as [H _].
    unfold NilZero.string_of_uint. destruct (Pos.to_uint p) eqn:E;
      [by destruct (Unsigned.to_uint_nonnil p)|..];
      rewrite <- E in *; rewrite H, Unsigned.of_to; done.
  - destruct (Hnum (Pos.to_uint p) (Unsigned.to_uint_nonnil p)) as [_ H].
    rewrite lit_cons. change (N_of_ascii "-") with 45%N.
    unfold NilZero.string_of_uint. destruct (Pos.to_uint p) eqn:E;
      [by destruct (Unsigned.to_uint_nonnil p)|..];
      rewrite <- E in *; rewrite <- app_comm_cons, H, Unsigned.of_to; done.
Qed.

(** X16: the name multer gives an upload determines the clock reading
    and the original name: two uploads get the same stored name only
    when they arrive in the same millisecond under the same original
    name (and then the second overwrites the first). *)
Theorem uniqueName_injective u1 u2 :
  uniqueName u1 = uniqueName u2 ->
  now u1 = now u2 /\ originalname u1 = originalname u2.
Proof.
  unfold uniqueName. intros H%app_inv_head.
  change (lit "_" ++ ?o) with (95%N :: o) in H.
  assert (Hn : now u1 = now u2).
  { apply (f_equal parseInt) in H.
    rewrite !parseInt_decimal_app in H by done. by injection H. }
  split; [done|]. rewrite Hn in H. apply app_inv_head in H. by injection H.
Qed.

(** ** Stored names *)

Lemma trimStart_head s c r : trimStart s = c :: r -> isWhiteSpace c = false.
Proof.
  induction s as [|a s IH]; simpl; [done|].
  destruct (isWhiteSpace a) eqn:E; [done|]. by intros [= <- _].
Qed.

Lemma trimStart_fixed s :
  (forall c, head s = Some c -> isWhiteSpace c = false) -> trimStart s = s.
Proof. destruct s as [|a s]; simpl; [done|]. intros H. by rewrite H. Qed.

Lemma trim_ends s :
  (forall c, head (trim s) = Some c -> isWhiteSpace c = false) /\
  (forall c, last (trim s) = Some c -> isWhiteSpace c = false).
Proof.
  unfold trim. split; intros c Hc.
  - destruct (trimEnd_prefix (trimStart s)) as [w Hw].
    destruct (trimEnd (trimStart s)) as [|a t] eqn:E; [done|].
    simpl in Hc. injection Hc as ->.
    by apply (trimStart_head s c (t ++ w)).
  - unfold trimEnd in Hc. rewrite last_reverse in Hc.
    destruct (trimStart (reverse (trimStart s))) as [|a t] eqn:E; [done|].
    simpl in Hc. injection Hc as ->. by eapply trimStart_head.
Qed.

Lemma trim_idempotent s : trim (trim s) = trim s.
Proof.
  destruct (trim_ends s) as [Hhead Hlast].
  unfold trim at 1. rewrite (trimStart_fixed _ Hhead).
  unfold trimEnd. rewrite trimStart_fixed; [apply reverse_involutive|].
  intros c Hc. apply Hlast. by rewrite <- head_reverse.
Qed.

(** X17: the name a register stores is the trimmed one: the new item is
    the last of the store, its name is not empty, has no white space at
    either end, and trimming it again changes nothing.  (An update, by
    contrast, stores the name as sent.) *)
Theorem registered_name_is_trimmed cache req s n :
  method req = POST ->
  is_Some (matchPath registerPath (path req)) ->
  body req !! lit "inventory_name" = Some (VStr n) ->
  trim n <> [] ->
  exists item t,
    last (inventory (handle cache req s).2) = Some item /\
    inventory_name item = VStr t /\
    t = trim n /\ t <> [] /\ trim t = t /\
    (forall c, head t = Some c -> isWhiteSpace c = false) /\
    (forall c, last t = Some c -> isWhiteSpace c = false).
Proof.
  intros Hm Hp Hname Hn.
  destruct (register_success req s n Hname Hn) as (item & Hreg & _ & Hnm & _).
  rewrite (handle_register _ _ _ Hm Hp), Hreg. simpl.
  destruct (trim_ends n) as [Hhead Hlast].
  exists item, (trim n). split_and!; try done.
  - apply last_snoc.
  - apply trim_idempotent.
Qed.

(** ** Search *)

(** X18: the link a search gives is the link of the DTO: for an item
    that is found, [photo_url] equals the [photo_url] that get-by-id and
    list give for it when [has_photo] is "on", and is null otherwise;
    name, description and id are those of the DTO. *)
Theorem search_agrees_with_dto cache req s n item :
  method req = POST ->
  is_Some (matchPath searchPath (path req)) ->
  parseInt (toStringOpt (body req !! lit "id")) = Some n ->
  findItem (Some n) (inventory s) = Some item ->
  exists r,
    (handle cache req s).1 = RJson 200 (BSearch r) /\
    res_id r = dto_id (itemToDTO req item) /\
    res_inventory_name r = dto_inventory_name (itemToDTO req item) /\
    res_description r = dto_description (itemToDTO req item) /\
    has_photo r = bool_decide (is_Some (dto_photo_url (itemToDTO req item))) /\
    photo_url r =
      if isString (lit "on") (body req !! lit "has_photo")
      then dto_photo_url (itemToDTO req item) else None.
Proof.
  intros Hm Hp Hid Hitem. rewrite (handle_search _ _ _ Hm Hp). unfold search.
  rewrite Hid, Hitem. simpl. eexists. split; [reflexivity|]. simpl.
  destruct (photoOf item), (isString _ _); split_and!; try done.
Qed.

(** ** HEAD *)

(** X19: a HEAD request is handled exactly as the GET request with the
    same path, headers and body, on every path: same response, same
    (unchanged) state. *)
Theorem head_handled_as_get cache req s :
  method req = HEAD ->
  handle cache req s = handle cache (withMethod GET req) s.
Proof.
  intros Hm. set (req' := withMethod GET req).
  assert (Hm' : method req' = GET) by done.
  assert (Hpath : path req' = path req) by done.
  destruct (matchPath [Lit "RegisterForm.html"] (path req)) as [ps|] eqn:F1.
  { pose proof F1 as F1'. rewrite <- Hpath in F1'.
    transitivity (RPage (lit "RegisterForm.html"), s); [|symmetry];
      unfold handle, app; [layer Hm F1|layer Hm' F1']; reflexivity. }
  destruct (matchPath [Lit "SearchForm.html"] (path req)) as [ps|] eqn:F2.
  { pose proof F2 as F2'. rewrite <- Hpath in F2'.
    transitivity (RPage (lit "SearchForm.html"), s); [|symmetry];
      unfold handle, app; [repeat (layer Hm F2; try reflexivity)
                          |repeat (layer Hm' F2'; try reflexivity)]. }
  destruct (matchPath registerPath (path req)) as [ps|] eqn:P1.
  { pose proof P1 as P1'. rewrite <- Hpath in P1'.
    transitivity (methodNotAllowed, s); [|symmetry];
      [by walk_stack Hm P1|by walk_stack Hm' P1']. }
  destruct (matchPath inventoryPath (path req)) as [ps|] eqn:P2.
  { rewrite (handle_listItems cache req s (or_intror Hm)) by eauto.
    rewrite (handle_listItems cache req' s (or_introl Hm')) by (rewrite Hpath; eauto).
    reflexivity. }
  destruct (matchPath itemPath (path req)) as [ps|] eqn:P3.
  { rewrite (handle_getItem cache req s ps (or_intror Hm) P3).
    rewrite (handle_getItem cache req' s ps (or_introl Hm')) by by rewrite Hpath.
    reflexivity. }
  destruct (matchPath photoPath (path req)) as [ps|] eqn:P4.
  { rewrite (handle_getPhoto cache req s ps (or_intror Hm) P4).
    rewrite (handle_getPhoto cache req' s ps (or_introl Hm')) by by rewrite Hpath.
    reflexivity. }
  destruct (matchPath searchPath (path req)) as [ps|] eqn:P5.
  { pose proof P5 as P5'. rewrite <- Hpath in P5'.
    transitivity (methodNotAllowed, s); [|symmetry];
      [by walk_stack Hm P5|by walk_stack Hm' P5']. }
  unfold registerPath, inventoryPath, itemPath, photoPath, searchPath in *.
  transitivity (RJson 404 (BError (lit "Not Found")), s); [|symmetry];
    unfold handle, app.
  - repeat (skip_layer Hm; rewrite ?F1, ?F2, ?P1, ?P2, ?P3, ?P4, ?P5; cbv match).
    reflexivity.
  - rewrite <- Hpath in F1, F2, P1, P2, P3, P4, P5.
    repeat (skip_layer Hm'; rewrite ?F1, ?F2, ?P1, ?P2, ?P3, ?P4, ?P5; cbv match).
    reflexivity.
Qed.

(** ** More edge cases *)

(** X20: photo files are not counted by reference: deleting an item
    removes its photo file even when another item refers to the same
    file, and from then on the photo route of that other item answers
    404 "Photo file not found". *)
Theorem delete_takes_shared_photo cache req req' s ps i removed other f :
  method req = DELETE ->
  matchPath itemPath (path req) = Some ps ->
  findEntry (parseInt (paramId ps)) (inventory s) = Some (i, removed) ->
  photoOf removed = Some f ->
  let s' := (handle cache req s).2 in
  findItem (Some (id other)) (inventory s') = Some other ->
  photoOf other = Some f ->
  method req' = GET ->
  path req' = [lit "inventory"; decimal (id other); lit "photo"] ->
  handle cache req' s' = (notFound "Photo file not found", s').
Proof.
  intros Hm Hp Hfind Hf. simpl. rewrite (handle_deleteItem _ _ _ _ Hm Hp).
  destruct (deleteItem_found ps req s i removed Hfind)
    as (_ & _ & _ & Hgone & _).
  intros Hother Hf' Hm' Hpath.
  destruct (matchPath_photo_decimal (id other)) as [Hp' Hparse].
  rewrite <- Hpath in Hp'.
  rewrite (handle_getPhoto _ _ _ _ (or_introl Hm') Hp'). unfold getPhoto.
  by rewrite Hparse, Hother, Hf', (Hgone f Hf).
Qed.

(** X21: in a path, what follows the digits of the id is ignored, as in
    a search: GET [/inventory/<id><text>], the text starting with a
    character that is not a digit, returns the item found under that
    id. *)
Theorem path_id_trailing_text_ignored cache req s item c t :
  method req = GET ->
  path req = [lit "inventory"; decimal (id item) ++ c :: t] ->
  isDigit c = false ->
  findItem (Some (id item)) (inventory s) = Some item ->
  handle cache req s = (RJson 200 (BItem (itemToDTO req item)), s).
Proof.
  intros Hm Hpath Hc Hitem.
  assert (Hp : matchPath itemPath (path req)
               = Some [(lit "id", decimal (id item) ++ c :: t)]).
  { rewrite Hpath. unfold matchPath, stripSlash. simpl.
    destruct (decimal (id item)) as [|a r]; reflexivity. }
  rewrite (handle_getItem _ _ _ _ (or_introl Hm) Hp). unfold getItem.
  change (paramId _) with (decimal (id item) ++ c :: t).
  by rewrite (parseInt_decimal_app _ _ _ Hc), Hitem.
Qed.

(** ** List and get-by-id *)

Lemma findItem_distinct inv item :
  NoDup (id <$> inv) -> item ∈ inv -> findItem (Some (id item)) inv = Some item.
Proof.
  intros Hnd [i Hi]%list_elem_of_lookup.
  rewrite findItem_entry. unfold findEntry.
  rewrite (proj2 (list_find_Some (hasId (Some (id item))) inv i item)); [done|].
  split_and!; [done|done|].
  intros j y Hj Hlt [= Heq].
  assert (i = j); [|lia].
  eapply (NoDup_lookup _ _ _ (id item) Hnd).
  - by rewrite list_lookup_fmap, Hi.
  - rewrite list_lookup_fmap, Hj. simpl. by rewrite Heq.
Qed.

(** X22: the list and get-by-id agree: with distinct ids in the store,
    every stored item is returned by GET [/inventory/<its id>], and the
    DTO returned is an entry of the list that GET [/inventory] gives, at
    the item's position. *)
Theorem list_and_get_agree cache req reqList s i item :
  NoDup (id <$> inventory s) ->
  inventory s !! i = Some item ->
  method req = GET ->
  path req = [lit "inventory"; decimal (id item)] ->
  method reqList = GET ->
  path reqList = [lit "inventory"] ->
  handle cache req s = (RJson 200 (BItem (itemToDTO req item)), s) /\
  exists l,
    handle cache reqList s = (RJson 200 (BList l), s) /\
    length l = length (inventory s) /\
    l !! i = Some (itemToDTO reqList item).
Proof.
  intros Hnd Hi Hm Hpath Hml Hpl.
  destruct (matchPath_decimal (id item)) as [Hp Hparse]. rewrite <- Hpath in Hp.
  split.
  - rewrite (handle_getItem _ _ _ _ (or_introl Hm) Hp). unfold getItem.
    rewrite Hparse, (findItem_distinct _ item Hnd); [done|].
    by eapply list_elem_of_lookup_2.
  - rewrite (handle_listItems cache reqList s (or_introl Hml))
      by (rewrite Hpl; vm_compute; eauto).
    unfold listItems. eexists. split; [reflexivity|].
    split; [apply length_fmap|]. by rewrite list_lookup_fmap, Hi.
Qed.


(** * Further concrete runs *)

Ltac ev := vm_compute; reflexivity.
Ltac evs := vm_compute; eexists; reflexivity.

Lemma counter_and_length_accounting_witness :
  (0 <= nextId oneDrill < 2 ^ 53)%Z /\
  nextId (handle sampleCache (registerReq "Saw") oneDrill).2 = 3%Z /\
  length (inventory (handle sampleCache (registerReq "Saw") oneDrill).2) = 2%nat.
Proof.
  assert (H : (0 <= nextId oneDrill < 2 ^ 53)%Z) by (simpl; lia).
  destruct (counter_and_length_accounting sampleCache (registerReq "Saw")
              oneDrill) as (_ & Hnext & Hlen).
  split; [exact H|split].
  - rewrite (Hnext H). ev.
  - rewrite Hlen. ev.
Defined.

Lemma other_methods_change_nothing_witness :
  (handle sampleCache (request PATCH [lit "register"] ∅ None) oneDrill).2
    = oneDrill.
Proof.
  apply (other_methods_change_nothing sampleCache
           (request PATCH [lit "register"] ∅ None) oneDrill);
    vm_compute; discriminate.
Defined.

Lemma non_numeric_path_id_not_found_witness :
  handle sampleCache (getReq [lit "inventory"; lit "abc"]) oneDrill
    = (notFound "Item not found", oneDrill).
Proof.
  apply (non_numeric_path_id_not_found sampleCache
           (getReq [lit "inventory"; lit "abc"]) oneDrill
           [(lit "id", lit "abc")]).
  - ev.
  - ev.
  - apply (bool_decide_unpack _). ev.
Defined.

Lemma form_pages_served_witness :
  handle sampleCache (request HEAD [lit "SearchForm.html"] ∅ None) oneDrill
    = (RPage (lit "SearchForm.html"), oneDrill).
Proof.
  apply (form_pages_served sampleCache
           (request HEAD [lit "SearchForm.html"] ∅ None) oneDrill
           "SearchForm.html").
  - apply (bool_decide_unpack _). ev.
  - evs.
Defined.

Lemma photo_url_leads_to_photo_witness :
  dto_photo_url (itemToDTO getDrillPhoto (withPhoto drillPhoto drill))
    = Some (lit "http://localhost:3000/inventory/1/photo") /\
  handle sampleCache getDrillPhoto drillWithPhoto
    = (RFile (lit "image/jpeg") (Blob [255; 216; 255]%N), drillWithPhoto).
Proof.
  destruct (photo_url_leads_to_photo sampleCache getDrillPhoto getDrillPhoto
              drillWithPhoto (withPhoto drillPhoto drill) drillPhoto
              (Blob [255; 216; 255]%N)) as [Hurl Hget]; [ev|ev|ev|ev|ev|ev|].
  split; [|exact Hget]. apply Hurl. ev.
Defined.

Lemma registered_photo_is_served_witness :
  handle sampleCache (getReq [lit "inventory"; lit "1"; lit "photo"])
    (handle sampleCache (registerPhotoReq "Saw") (run sampleCache [] (startup ∅))).2
  = (RFile (lit "image/jpeg") (Blob (bytes newPhoto)),
     (handle sampleCache (registerPhotoReq "Saw") (run sampleCache [] (startup ∅))).2).
Proof.
  refine (proj2 (proj2 (registered_photo_is_served sampleCache ∅ []
            (registerPhotoReq "Saw") (getReq [lit "inventory"; lit "1"; lit "photo"])
            (lit "Saw") newPhoto _ _ _ _ _ _ _ _)) _);
    first [ ev | evs | (vm_compute; discriminate) ].
Defined.

Lemma updated_photo_is_served_witness :
  handle sampleCache getDrillPhoto
    (handle sampleCache putPhotoReq drillWithPhoto).2
  = (RFile (lit "image/jpeg") (Blob (bytes newPhoto)),
     (handle sampleCache putPhotoReq drillWithPhoto).2).
Proof.
  apply (updated_photo_is_served sampleCache putPhotoReq getDrillPhoto
           drillWithPhoto [(lit "id", lit "1")] 0%nat
           (withPhoto drillPhoto drill) newPhoto); ev.
Defined.


Lemma refused_register_keeps_upload_witness :
  (handle sampleCache (registerPhotoReq "  ") oneDrill).1
    = RJson 400 (BError (lit "inventory_name is required")) /\
  inventory (handle sampleCache (registerPhotoReq "  ") oneDrill).2 = [drill] /\
  files (handle sampleCache (registerPhotoReq "  ") oneDrill).2
    !! uniqueName newPhoto = Some (Blob (bytes newPhoto)).
Proof.
  apply (refused_register_keeps_upload sampleCache (registerPhotoReq "  ")
           oneDrill newPhoto).
  - ev.
  - evs.
  - right. exists (lit "  "). split; ev.
  - ev.
Defined.

Lemma update_idempotent_witness :
  handle sampleCache putDescriptionReq
    (handle sampleCache putDescriptionReq oneDrill).2
  = handle sampleCache putDescriptionReq oneDrill.
Proof.
  apply (update_idempotent sampleCache putDescriptionReq oneDrill
           [(lit "id", lit "1")]); ev.
Defined.

Lemma register_then_delete_witness :
  inventory (handle sampleCache (deleteReq "1")
               (handle sampleCache (registerReq "Drill")
                  (run sampleCache [] (startup ∅))).2).2 = [] /\
  nextId (handle sampleCache (deleteReq "1")
            (handle sampleCache (registerReq "Drill")
               (run sampleCache [] (startup ∅))).2).2 = 2%Z.
Proof.
  destruct (register_then_delete sampleCache ∅ [] (registerReq "Drill")
              (deleteReq "1") (lit "Drill")) as (_ & Hsafe);
    [ev|evs|ev|vm_compute; discriminate|ev|ev|].
  destruct Hsafe as (Hinv & Hnext & _); [ev|].
  split; [exact Hinv|exact Hnext].
Defined.



Lemma ids_stay_distinct_witness :
  NoDup (id <$> inventory (run sampleCache threeRequests (startup ∅))).
Proof.
  refine (proj1 (ids_stay_distinct sampleCache ∅ threeRequests _ _));
    [apply (bool_decide_unpack _); ev|ev].
Defined.

Lemma uniqueName_injective_witness :
  uniqueName newPhoto = uniqueName samePhotoName /\
  now newPhoto = now samePhotoName /\
  originalname newPhoto = originalname samePhotoName.
Proof.
  assert (H : uniqueName newPhoto = uniqueName samePhotoName) by ev.
  split; [exact H|]. exact (uniqueName_injective newPhoto samePhotoName H).
Defined.

Lemma registered_name_is_trimmed_witness :
  exists item,
    last (inventory (handle sampleCache (registerReq "  Saw ") oneDrill).2)
      = Some item /\
    inventory_name item = VStr (lit "Saw").
Proof.
  destruct (registered_name_is_trimmed sampleCache (registerReq "  Saw ")
              oneDrill (lit "  Saw ")) as (item & t & Hl & Hn & Ht & _);
    [ev|evs|ev|vm_compute; discriminate|].
  exists item. split; [exact Hl|]. rewrite Hn, Ht. ev.
Defined.

Lemma search_agrees_with_dto_witness :
  exists r,
    (handle sampleCache (searchReq "1") drillWithPhoto).1 = RJson 200 (BSearch r) /\
    photo_url r = Some (lit "http://localhost:3000/inventory/1/photo").
Proof.
  destruct (search_agrees_with_dto sampleCache (searchReq "1") drillWithPhoto
              1%Z (withPhoto drillPhoto drill))
    as (r & Hr & _ & _ & _ & _ & Hu); [ev|evs|ev|ev|].
  exists r. split; [exact Hr|]. rewrite Hu. ev.
Defined.

Lemma head_handled_as_get_witness :
  handle sampleCache (request HEAD [lit "inventory"; lit "1"] ∅ None) oneDrill
  = handle sampleCache
      (withMethod GET (request HEAD [lit "inventory"; lit "1"] ∅ None)) oneDrill.
Proof.
  apply (head_handled_as_get sampleCache
           (request HEAD [lit "inventory"; lit "1"] ∅ None) oneDrill).
  ev.
Defined.

Lemma delete_takes_shared_photo_witness :
  handle sampleCache (getReq [lit "inventory"; lit "2"; lit "photo"])
    (handle sampleCache (deleteReq "1") sharedPhoto).2
  = (notFound "Photo file not found",
     (handle sampleCache (deleteReq "1") sharedPhoto).2).
Proof.
  apply (delete_takes_shared_photo sampleCache (deleteReq "1")
           (getReq [lit "inventory"; lit "2"; lit "photo"]) sharedPhoto
           [(lit "id", lit "1")] 0%nat (withPhoto drillPhoto drill) sawItem
           drillPhoto); ev.
Defined.

Lemma path_id_trailing_text_ignored_witness :
  handle sampleCache (getReq [lit "inventory"; lit "1abc"]) oneDrill
  = (RJson 200 (BItem (itemToDTO (getReq [lit "inventory"; lit "1abc"]) drill)),
     oneDrill).
Proof.
  apply (path_id_trailing_text_ignored sampleCache
           (getReq [lit "inventory"; lit "1abc"]) oneDrill drill 97%N (lit "bc"));
    ev.
Defined.

Lemma list_and_get_agree_witness :
  handle sampleCache (getReq [lit "inventory"; lit "1"]) oneDrill
  = (RJson 200 (BItem (itemToDTO (getReq [lit "inventory"; lit "1"]) drill)),
     oneDrill).
Proof.
  refine (proj1 (list_and_get_agree sampleCache
                   (getReq [lit "inventory"; lit "1"]) (getReq [lit "inventory"])
                   oneDrill 0%nat drill _ _ _ _ _ _));
    first [ ev | (apply (bool_decide_unpack _); ev) ].
Defined.

